(** * TAO Stats pipeline: acquisition and normalisation

    A shallow embedding of [bittensor_stats/tao_stats_visualizer.py]
    (and of its older sibling [tao_stats_visualizer.py]): the paginated
    fetch with retry and backoff, the price source and its fallbacks, the
    price cache, the nearest-date price lookup and the per-record
    normalisation.

    Python dictionaries are finite maps ([gmap]), Python integers are [Z],
    exceptions are an explicit outcome type, and the effects of the fetch
    loop (requests and sleeps) are recorded in a trace. *)

From Stdlib Require Import ZArith QArith Qround Qabs Qpower Lia Lqa.
From stdpp Require Import base option list sorting gmap strings.

Local Open Scope Z_scope.

(** ** Nearest-date price resolution *)

(** [sorted(price_data.keys())]: the keys of the dictionary in ascending
    order of Python's string comparison (lexicographic by character
    code). The keys of a dictionary are pairwise distinct, so every
    sorting algorithm yields the same list. *)
Definition sorted (l : list string) : list string := merge_sort String.le l.

Definition keys {P} (price_data : gmap string P) : list string :=
  elements (dom price_data).

(** Python's [available_date >= date_str] on strings. *)
Definition str_ge (a b : string) : bool := String.leb b a.

Section lookup.
  Context {P : Type}.
  Implicit Types (price_data : gmap string P) (date_str : string).

  (** The [for available_date in available_dates] loop of
      [get_price_for_date]: returns at the first date on or after the
      target. *)
Fixpoint scan_dates price_data (available_dates : list string) date_str
    : option P :=
    match available_dates with
    | [] => None
    | available_date :: rest =>
        if str_ge available_date date_str
        then price_data !! available_date
        else scan_dates price_data rest date_str
    end.

  (** [get_price_for_date(price_data, date_str)]; [None] is Python's
      [None]. *)
Definition get_price_for_date price_data date_str : option P :=
    match price_data !! date_str with
    | Some p => Some p
    | None =>
        let available_dates := sorted (keys price_data) in
        match scan_dates price_data available_dates date_str with
        | Some p => Some p
        | None =>
            match last available_dates with
            | Some k => price_data !! k
            | None => None
            end
        end
    end.

  (** The same lookup as written inline in [process_data]: a variable
      initialised to [None], the loop with [break], and the final
      [if tao_price_usd is None and available_dates]. *)
Definition resolve_price price_data date_str : option P :=
    let tao_price_usd : option P := None in
    match price_data !! date_str with
    | Some p => Some p
    | None =>
        let available_dates := sorted (keys price_data) in
        let tao_price_usd :=
          from_option Some tao_price_usd
            (scan_dates price_data available_dates date_str) in
        match tao_price_usd, available_dates with
        | None, _ :: _ => price_data !! default ""%string (last available_dates)
        | _, _ => tao_price_usd
        end
    end.

End lookup.

(** [k] is the smallest key of the map on or after the date [d]. *)
Definition least_key_from {P} (price_data : gmap string P) (d k : string) : Prop :=
  k ∈ dom price_data ∧ String.le d k ∧
  ∀ k', k' ∈ dom price_data → String.le d k' → String.le k k'.

(** [k] is the largest key of the map. *)
Definition max_key {P} (price_data : gmap string P) (k : string) : Prop :=
  k ∈ dom price_data ∧ ∀ k', k' ∈ dom price_data → String.le k' k.

(** The first element of a list that is on or after [d]: the date at which
    the scan of [scan_dates] stops. *)
Fixpoint first_from (l : list string) (d : string) : option string :=
  match l with
  | [] => None
  | k :: rest => if str_ge k d then Some k else first_from rest d
  end.

(** ** Configuration ([config.py]) *)

Definition REQUEST_DELAY : Z := 3.
Definition MAX_RETRIES : nat := 3.
Definition RATE_LIMIT_BACKOFF : Z := 5.

(** ** The paginated fetch ([TaoStatsAPI.fetch_all_data]) *)

(** The JSON body of a successful response. [data] is [None] when the
    body has no ['data'] key; [pagination] is [None] when it has no
    ['pagination'] key and [Some None] when the pagination object has no
    ['total_pages'] key. A body that is a JSON array without the string
    ['data'] among its elements passes the test ['data' not in data] like
    an object without the key, and is read as [data = None] too. *)
Record body (R : Type) := Body {
  data : option (list R);
  pagination : option (option Z)
}.
Arguments Body {R} _ _.
Arguments data {R} _.
Arguments pagination {R} _.

(** What one [requests.get] can lead to inside the [try] block. *)
Inductive response (R : Type) :=
  | TransportError          (* [requests.get] raises a [RequestException];
                               likewise [response.json()] on a body that is
                               not JSON: its [JSONDecodeError] is a
                               [RequestException] (requests 2.27 and later) *)
  | Status429               (* [response.status_code == 429] *)
  | HttpError               (* [raise_for_status] raises [HTTPError] *)
  | Malformed               (* the body is JSON, and the code that reads it
                               raises an exception that is not a
                               [RequestException]: a [TypeError] or an
                               [AttributeError], as on the body [null], on
                               an object whose ['data'] is the number 5, or
                               on one with records whose ['pagination'] is
                               [null] *)
  | Success (b : body R).
Arguments TransportError {R}.
Arguments Status429 {R}.
Arguments HttpError {R}.
Arguments Malformed {R}.
Arguments Success {R} _.

(** The observable effects of the fetch, in the order they happen. *)
Inductive event :=
  | Request (page : Z)      (* [requests.get] with [params['page'] = page] *)
  | Sleep (seconds : Z).    (* [time.sleep(seconds)] *)

(** How a call of [fetch_all_data] ends. *)
Inductive outcome (A : Type) :=
  | Returned (a : A)        (* a [return] statement *)
  | Raised                  (* an exception leaves the function *)
  | OutOfFuel.              (* the model's loop bound was reached *)
Arguments Returned {A} _.
Arguments Raised {A}.
Arguments OutOfFuel {A}.

(** How the retry loop of one page is left. *)
Inductive loop_exit (R : Type) :=
  | ExitReturn (all_data : list R)   (* [return all_data] *)
  | ExitLoop (all_data : list R)     (* [break], or the loop condition
                                        [retry_count < max_retries] fails *)
  | ExitRaise
  | ExitOutOfFuel.
Arguments ExitReturn {R} _.
Arguments ExitLoop {R} _.
Arguments ExitRaise {R}.
Arguments ExitOutOfFuel {R}.

Section fetch.
  Context {R : Type}.

  (** The upstream: the response to the request number [n] (counted from
      0 over the whole call) when it asks for page [page]. *)
  Variable transport : nat → Z → response R.

(** [data.get('pagination', {}).get('total_pages', 1)] *)
Definition total_pages_of (b : body R) : Z :=
  match pagination b with
  | Some (Some total_pages) => total_pages
  | _ => 1
  end.

(** The inner loop [while retry_count < max_retries] for one page. [n] is
    the number of requests issued before; the result carries the number
    issued after and the events of the loop. [fuel] bounds the number of
    iterations; [max_retries - retry_count] always suffices. *)
Fixpoint retry_loop (fuel : nat) (max_retries retry_count : nat) (n : nat)
    (page : Z) (all_data : list R) : loop_exit R * nat * list event :=
  if (retry_count <? max_retries)%nat then
    match fuel with
    | O => (ExitOutOfFuel, n, [])
    | S fuel' =>
        match transport n page with
        | Status429 =>
            let wait_time := 5 + 2 ^ Z.of_nat retry_count in
            let '(ex, n', evs) :=
              retry_loop fuel' max_retries (S retry_count) (S n) page all_data in
            (ex, n', Request page :: Sleep wait_time :: evs)
        | Success b =>
            match data b with
            | None | Some [] => (ExitReturn all_data, S n, [Request page])
            | Some page_data =>
                let all_data := all_data ++ page_data in
                let total_pages := total_pages_of b in
                if page >=? total_pages
                then (ExitReturn all_data, S n, [Request page])
                else (ExitLoop all_data, S n, [Request page])
            end
        | TransportError | HttpError =>
            let retry_count := S retry_count in
            if (retry_count <? max_retries)%nat then
              let wait_time := 2 ^ Z.of_nat retry_count in
              let '(ex, n', evs) :=
                retry_loop fuel' max_retries retry_count (S n) page all_data in
              (ex, n', Request page :: Sleep wait_time :: evs)
            else (ExitReturn all_data, S n, [Request page])
        | Malformed => (ExitRaise, S n, [Request page])
        end
    end
  else (ExitLoop all_data, n, []).

(** The outer loop [while True], from the state at the top of an
    iteration: the cursor [page], the records so far and the number of
    requests so far. [fuel] bounds the number of pages visited. *)
Fixpoint page_loop (fuel : nat) (max_retries : nat) (page : Z) (n : nat)
    (all_data : list R) : outcome (list R) * list event :=
  match fuel with
  | O => (OutOfFuel, [])
  | S fuel' =>
      let retry_count := 0%nat in
      match retry_loop max_retries max_retries retry_count n page all_data with
      | (ExitReturn all_data, _, evs) => (Returned all_data, evs)
      | (ExitRaise, _, evs) => (Raised, evs)
      | (ExitOutOfFuel, _, evs) => (OutOfFuel, evs)
      | (ExitLoop all_data, n', evs) =>
          let '(out, evs') :=
            page_loop fuel' max_retries (page + 1) n' all_data in
          (out, evs ++ Sleep 3 :: evs')
      end
  end.

(** [fetch_all_data]: [all_data = []], [page = 1],
    [max_retries = MAX_RETRIES]. *)
Definition fetch_all_data (fuel : nat) : outcome (list R) * list event :=
  page_loop fuel MAX_RETRIES 1 0%nat [].

End fetch.

(** The pages requested and the seconds slept, read off a trace. *)
Definition requests (evs : list event) : list Z :=
  omap (λ e, match e with Request p => Some p | Sleep _ => None end) evs.

Definition sleeps (evs : list event) : list Z :=
  omap (λ e, match e with Sleep s => Some s | Request _ => None end) evs.

(** A response that sends the retry loop into its [except] branch. *)
Definition is_error {R} (r : response R) : Prop :=
  r = TransportError ∨ r = HttpError.

(** The trace of a fetch in which every request succeeds at once: one
    request per page, and the fixed delay of three seconds between two
    pages. *)
Fixpoint page_trace (pages : list Z) : list event :=
  match pages with
  | [] => []
  | [page] => [Request page]
  | page :: rest => Request page :: Sleep 3 :: page_trace rest
  end.

(** *** Sample upstreams *)

(** Three pages of records, reported as [total_pages = 3]; any later page
    is the empty end-of-stream marker. *)
Definition three_pages (n : nat) (page : Z) : response Z :=
  if page <=? 3
  then Success (Body (Some [10 * page; 10 * page + 1]) (Some (Some 3)))
  else Success (Body (Some []) (Some (Some 3))).

(** Every page has records, and no response carries pagination
    metadata. *)
Definition no_pagination (n : nat) (page : Z) : response Z :=
  Success (Body (Some [10 * page; 10 * page + 1]) None).

(** Rate-limited twice, then a successful single page. *)
Definition rate_limited_twice (n : nat) (page : Z) : response Z :=
  match n with
  | 0%nat | 1%nat => Status429
  | _ => Success (Body (Some [7]) (Some (Some 1)))
  end.

(** A transport error on the first request, then a successful single
    page. *)
Definition error_then_success (n : nat) (page : Z) : response Z :=
  match n with
  | 0%nat => TransportError
  | _ => Success (Body (Some [7]) (Some (Some 1)))
  end.

(** Page 1 is rate-limited on every attempt; page 2 is the last page and
    succeeds. *)
Definition page_1_rate_limited (n : nat) (page : Z) : response Z :=
  if page =? 1
  then Status429
  else Success (Body (Some [20; 21]) (Some (Some 2))).

(** Every attempt at page 1 fails with an HTTP error. *)
Definition page_1_unreachable (n : nat) (page : Z) : response Z :=
  if page =? 1
  then HttpError
  else Success (Body (Some [20; 21]) (Some (Some 2))).

(** ** Python values used by the price code *)

(** A Python [float] (IEEE 754 binary64): a finite value, given by the
    rational number it denotes, an infinity or a NaN. The sign of a zero
    is not represented: [0.0] and [-0.0] are equal and both false in
    Python. *)
Inductive pyfloat :=
  | Finite (q : Q)
  | Infinity (negative : bool)
  | NaN.

(** [bool(x)] for a float: every float but zero is true (NaN
    included). *)
Definition truthy (x : pyfloat) : bool :=
  match x with
  | Finite q => negb (Qeq_bool q 0)
  | _ => true
  end.

(** How a call that may raise ends: with a value or with an exception
    (any instance of Python's [Exception]). *)
Inductive result (A : Type) :=
  | Ok (a : A)
  | Exn.
Arguments Ok {A} _.
Arguments Exn {A}.

Global Instance result_bind : MBind result := λ A B k r,
  match r with
  | Ok a => k a
  | Exn => Exn
  end.

Definition is_Ok {A} (r : result A) : bool :=
  match r with
  | Ok _ => true
  | Exn => false
  end.

(** The value of a call that did not raise ([d] otherwise). *)
Definition from_Ok {A} (d : A) (r : result A) : A :=
  match r with
  | Ok a => a
  | Exn => d
  end.

(** [try: body except Exception: handler] *)
Definition try_except {A} (body handler : result A) : result A :=
  match body with
  | Ok a => Ok a
  | Exn => handler
  end.

(** ** The price source ([fetch_tao_price_data],
    [fetch_historical_tao_prices]) *)

(** What the market-data feed and the clock answer during one call. A
    history is the list of the rows of the returned table, oldest first:
    the date of the row's index, formatted ["%Y-%m-%d"], and its
    ['Close'] value. *)
Record feed := Feed {
  (** [tao.history(period='1d')] *)
  history_1d : result (list (string * pyfloat));
  (** [tao.history(start=start_date, end=end_date)] *)
  history_range : string → string → result (list (string * pyfloat));
  (** [datetime.strptime(s, "%Y-%m-%d")] succeeds *)
  strptime_ok : string → bool;
  (** [datetime.now().strftime("%Y-%m-%d")] *)
  today : string
}.

(** The fallback price, [500.0]. *)
Definition FALLBACK_PRICE : pyfloat := Finite 500.

(** [fetch_tao_price_data]: the last ['Close'] of the one-day history, or
    the fallback price when the history is empty or the feed raises. *)
Definition fetch_tao_price_data (f : feed) : result pyfloat :=
  try_except
    (hist ← history_1d f;
     match last hist with
     | Some (_, current_price) => Ok current_price
     | None => Ok FALLBACK_PRICE
     end)
    (Ok FALLBACK_PRICE).

(** The loop [for date_idx, row in hist.iterrows():
    daily_prices[date_str] = price]: a later row overwrites an earlier
    one with the same date. *)
Definition daily_prices_of (hist : list (string * pyfloat)) : gmap string pyfloat :=
  foldl (λ daily_prices row, <[row.1 := row.2]> daily_prices) ∅ hist.

(** The fallback shared by the two places that use it:
    [try: current_price = fetch_tao_price_data(); if current_price:
    return {today: current_price} except Exception: pass], followed by
    [return {}]. *)
Definition current_price_fallback (f : feed) : result (gmap string pyfloat) :=
  try_except
    (current_price ← fetch_tao_price_data f;
     if truthy current_price
     then Ok {[ today f := current_price ]}
     else Ok ∅)
    (Ok ∅).

(** [fetch_historical_tao_prices(from_date, to_date)]; [None] for an
    argument left out. *)
Definition fetch_historical_tao_prices (f : feed)
    (from_date to_date : option string) : result (gmap string pyfloat) :=
  try_except
    (let from_date := default "2023-03-20"%string from_date in
     let to_date := default (today f) to_date in
     (if strptime_ok f from_date then Ok () else Exn);;
     (if strptime_ok f to_date then Ok () else Exn);;
     hist ← history_range f from_date to_date;
     match hist with
     | _ :: _ => Ok (daily_prices_of hist)
     | [] => current_price_fallback f
     end)
    (current_price_fallback f).

(** *** Sample feeds *)

(** The range query finds nothing and the latest close is 0. *)
Definition zero_price_feed : feed :=
  Feed (Ok [("2024-01-01"%string, Finite 0)])
       (λ _ _, Ok [])
       (λ _, true)
       "2024-01-02"%string.

(** The range query raises and the latest close is 431.5. *)
Definition failing_range_feed : feed :=
  Feed (Ok [("2024-01-02"%string, Finite 431.5)])
       (λ _ _, Exn)
       (λ _, true)
       "2024-01-02"%string.

(** ** The price cache ([save_price_data], [load_price_data],
    [get_or_fetch_price_data]) *)

(** A file [tao_price_data_*.csv] of the working directory: its name, its
    creation time [os.path.getctime] in microseconds, and the date-to-price
    rows it holds ([None] for a file that cannot be read as such a
    table). *)
Record price_file := PriceFile {
  file_name : string;
  ctime : Z;
  content : option (gmap string pyfloat)
}.

(** One day, in microseconds. *)
Definition DAY : Z := 86400 * 1000000.

(** [delta.days] of a [timedelta] of [delta] microseconds: whole days,
    rounded towards minus infinity. *)
Definition timedelta_days (delta : Z) : Z := delta / DAY.

(** [load_price_data(filename)]: the rows of the file, or [{}] when
    reading raises. *)
Definition load_price_data (file : price_file) : gmap string pyfloat :=
  default ∅ (content file).

(** [max(price_files, key=os.path.getctime)]: the first of the files
    with the greatest creation time, in the order [glob.glob] lists
    them. *)
Definition latest (price_files : list price_file) : option price_file :=
  match price_files with
  | [] => None
  | first :: rest =>
      Some (foldl (λ best file, if ctime file >? ctime best then file else best)
                  first rest)
  end.

(** Writing a file: a file of the same name is replaced, otherwise the
    file is new. *)
Fixpoint write_file (file : price_file) (files : list price_file) : list price_file :=
  match files with
  | [] => [file]
  | old :: rest =>
      if String.eqb (file_name old) (file_name file)
      then file :: rest
      else old :: write_file file rest
  end.

(** One run of [get_or_fetch_price_data]: what it returns, the files
    afterwards, and whether the price source was queried. *)
Record cache_run := CacheRun {
  returned : result (gmap string pyfloat);
  files_after : list price_file;
  fetched : bool
}.

Section cache.
  (** The name [tao_price_data_<%Y%m%d_%H%M%S>.csv] that
      [save_price_data] derives from the clock. *)
  Variable price_file_name : Z → string.

(** [save_price_data(price_data)] at time [now]: nothing is written for
    an empty mapping. Returns the file name (or [None]) and the files
    afterwards. *)
Definition save_price_data (files : list price_file) (now : Z)
    (price_data : gmap string pyfloat) : option string * list price_file :=
  if decide (price_data = ∅) then (None, files)
  else
    let filename := price_file_name now in
    (Some filename, write_file (PriceFile filename now (Some price_data)) files).

(** [get_or_fetch_price_data(start_date, end_date)] at time [now], with
    the files [price_files] matching [tao_price_data_*.csv]. *)
Definition get_or_fetch_price_data (f : feed) (price_files : list price_file)
    (now : Z) (start_date end_date : option string) : cache_run :=
  match latest price_files with
  | Some latest_file =>
      if timedelta_days (now - ctime latest_file) >? 1 then
        let existing_prices := load_price_data latest_file in
        match fetch_historical_tao_prices f start_date end_date with
        | Exn => CacheRun Exn price_files true
        | Ok new_prices =>
            (* {**existing_prices, **new_prices} *)
            let combined_prices := new_prices ∪ existing_prices in
            let '(_, files) := save_price_data price_files now combined_prices in
            CacheRun (Ok combined_prices) files true
        end
      else CacheRun (Ok (load_price_data latest_file)) price_files false
  | None =>
      match fetch_historical_tao_prices f start_date end_date with
      | Exn => CacheRun Exn price_files true
      | Ok price_data =>
          if decide (price_data = ∅)
          then CacheRun (Ok price_data) price_files true
          else
            let '(_, files) := save_price_data price_files now price_data in
            CacheRun (Ok price_data) files true
      end
  end.

End cache.

(** *** A sample cache *)

(** A feed whose range query returns two rows. *)
Definition two_row_feed : feed :=
  Feed (Ok [("2024-01-02"%string, Finite 107)])
       (λ _ _, Ok [("2024-01-01"%string, Finite 105);
                    ("2024-01-02"%string, Finite 107)])
       (λ _, true)
       "2024-01-03"%string.

(** The mapping of these two rows. *)
Definition two_rows : gmap string pyfloat :=
  daily_prices_of [("2024-01-01"%string, Finite 105);
                   ("2024-01-02"%string, Finite 107)].

(** One snapshot, created at time 0, with a single row. *)
Definition old_snapshot : price_file :=
  PriceFile "tao_price_data_old.csv" 0
    (Some {[ "2024-01-01"%string := Finite 100 ]}).

Definition sample_file_name (now : Z) : string := "tao_price_data_new.csv".

(** ** Floating-point arithmetic

    Python's floats are IEEE 754 binary64 numbers: 53 bits of precision,
    exponents such that the smallest positive number is [2 ^ -1074], and
    every operation returns the exact result rounded to the nearest
    float, ties going to the float with an even significand. *)

Definition pow2 (e : Z) : Q := (2 ^ e)%Q.

(** [floor (log2 x)] for a positive rational [x]. *)
Definition ilog2 (x : Q) : Z :=
  let k := Z.log2 (Qnum x) - Z.log2 (Zpos (Qden x)) in
  if Qle_bool (pow2 k) x then k else k - 1.

(** The nearest integer, a tie going to the even one. *)
Definition round_half_even (x : Q) : Z :=
  let f := Qfloor x in
  match (x - inject_Z f ?= 1 # 2)%Q with
  | Lt => f
  | Gt => f + 1
  | Eq => if Z.even f then f else f + 1
  end.

(** The exponent of the unit in the last place of the floats around a
    positive [x]: 52 below the exponent of [x], and never below that of
    the subnormal numbers. *)
Definition ulp_exponent (x : Q) : Z := Z.max (ilog2 x - 52) (-1074).

(** The float nearest to a positive [x], the exponent range taken as
    unbounded above. *)
Definition round_pos (x : Q) : Q :=
  (inject_Z (round_half_even (x / pow2 (ulp_exponent x)))
   * pow2 (ulp_exponent x))%Q.

Definition round64 (x : Q) : Q :=
  Qred match (x ?= 0)%Q with
       | Eq => 0
       | Gt => round_pos x
       | Lt => - round_pos (- x)
       end.

(** A rounded result of magnitude [2 ^ 1024] or more is out of range. *)
Definition overflows (y : Q) : bool := Qle_bool (pow2 1024) (Qabs y).

Definition Qnegative (q : Q) : bool := Qnum q <? 0.

(** The float an operation returns whose exact result is [x]. *)
Definition to_float (x : Q) : pyfloat :=
  let y := round64 x in
  if overflows y then Infinity (Qnegative y) else Finite y.

Definition is_zero (x : pyfloat) : bool :=
  match x with
  | Finite q => Qeq_bool q 0
  | _ => false
  end.

Definition is_negative (x : pyfloat) : bool :=
  match x with
  | Finite q => Qnegative q
  | Infinity negative => negative
  | NaN => false
  end.

(** [x * y] *)
Definition fmul (x y : pyfloat) : pyfloat :=
  match x, y with
  | NaN, _ | _, NaN => NaN
  | Finite a, Finite b => to_float (a * b)
  | Infinity s, other | other, Infinity s =>
      if is_zero other then NaN else Infinity (xorb s (is_negative other))
  end.

(** [x + y] *)
Definition fadd (x y : pyfloat) : pyfloat :=
  match x, y with
  | NaN, _ | _, NaN => NaN
  | Finite a, Finite b => to_float (a + b)
  | Infinity s, Infinity s' => if Bool.eqb s s' then Infinity s else NaN
  | Infinity s, Finite _ | Finite _, Infinity s => Infinity s
  end.

(** [x - y] *)
Definition fsub (x y : pyfloat) : pyfloat :=
  match x, y with
  | NaN, _ | _, NaN => NaN
  | Finite a, Finite b => to_float (a - b)
  | Infinity s, Infinity s' => if Bool.eqb s s' then NaN else Infinity s
  | Infinity s, Finite _ => Infinity s
  | Finite _, Infinity s => Infinity (negb s)
  end.

(** [x / y] on Python floats: [ZeroDivisionError] for a zero divisor. *)
Definition fdiv (x y : pyfloat) : result pyfloat :=
  if is_zero y then Exn
  else
    Ok match x, y with
       | NaN, _ | _, NaN => NaN
       | Finite a, Finite b => to_float (a / b)
       | Infinity _, Infinity _ => NaN
       | Infinity s, Finite b => Infinity (xorb s (Qnegative b))
       | Finite _, Infinity _ => Finite 0
       end.

(** [x > 0] *)
Definition fpositive (x : pyfloat) : bool :=
  match x with
  | Finite q => 0 <? Qnum q
  | Infinity negative => negb negative
  | NaN => false
  end.

(** [float(z)] for an integer: [OverflowError] when [z] is too large. *)
Definition float_of_int (z : Z) : result pyfloat :=
  let y := round64 (inject_Z z) in
  if overflows y then Exn else Ok (Finite y).

(** [a / b] on integers: the quotient rounded once; [ZeroDivisionError]
    for [b = 0], [OverflowError] when the quotient is too large. *)
Definition int_truediv (a b : Z) : result pyfloat :=
  if b =? 0 then Exn
  else
    let y := round64 (inject_Z a / inject_Z b) in
    if overflows y then Exn else Ok (Finite y).

(** The value of [z / 1e9] for an integer [z] that converts to a float:
    the integer is rounded to a float, and so is the quotient. *)
Definition tao (z : Z) : Q := round64 (round64 (inject_Z z) / 1000000000).

(** ** Normalisation ([TaoStatsAPI.process_data]) *)

(** A record of the API. The numeric fields hold the integers that the
    strings of the JSON record denote (what [int(entry[...])] yields). *)
Record raw_record := RawRecord {
  timestamp : string;
  block_number : Z;
  issued : Z;
  staked : Z;
  accounts : Z;
  balance_holders : Z
}.

(** The values stored in a row. *)
Inductive value :=
  | VInt (z : Z)
  | VFloat (x : pyfloat)
  | VTimestamp (t : Z).       (* a [pandas.Timestamp], as an instant *)

(** The four columns added when a price is resolved. *)
Definition usd_fields : list string :=
  ["total_market_cap_usd"; "staked_market_cap_usd";
   "circulating_market_cap_usd"; "tao_price_usd"]%string.

(** [df.sort_values('timestamp')] compares the rows by their timestamp.
    The order of rows with equal timestamps is left open by pandas (its
    default sort is not stable); the model sorts with a merge sort. *)
Definition timestamp_of (data_point : gmap string value) : Z :=
  match data_point !! "timestamp"%string with
  | Some (VTimestamp t) => t
  | _ => 0
  end.

Definition timestamp_le (a b : gmap string value) : Prop :=
  timestamp_of a ≤ timestamp_of b.

Global Instance timestamp_le_dec : RelDecision timestamp_le.
Proof. intros a b. unfold timestamp_le. apply _. Defined.

Definition sort_values (rows : list (gmap string value)) : list (gmap string value) :=
  merge_sort timestamp_le rows.

(** The dictionary literal [data_point = {...}] of [process_data]. *)
Definition base_data_point (ts : Z) (entry : raw_record)
    (issued_tao staked_tao circulating_tao : pyfloat)
    (staked_percentage circulating_percentage : value) : gmap string value :=
  list_to_map
    [("timestamp", VTimestamp ts);
     ("block_number", VInt (block_number entry));
     ("issued_tao", VFloat issued_tao);
     ("staked_tao", VFloat staked_tao);
     ("circulating_tao", VFloat circulating_tao);
     ("staked_percentage", staked_percentage);
     ("circulating_percentage", circulating_percentage);
     ("accounts", VInt (accounts entry));
     ("balance_holders", VInt (balance_holders entry))]%string.

(** [data_point.update({...})] with the four USD values. *)
Definition usd_update (issued_tao staked_tao circulating_tao tao_price_usd : pyfloat)
    (data_point : gmap string value) : gmap string value :=
  <["total_market_cap_usd"%string := VFloat (fmul issued_tao tao_price_usd)]>
    (<["staked_market_cap_usd"%string := VFloat (fmul staked_tao tao_price_usd)]>
       (<["circulating_market_cap_usd"%string :=
            VFloat (fmul circulating_tao tao_price_usd)]>
          (<["tao_price_usd"%string := VFloat tao_price_usd]> data_point))).

(** The dictionary literal of the older [process_data]. *)
Definition base_data_point_v1 (ts : Z) (entry : raw_record)
    (issued_tao staked_tao : pyfloat) (staked_percentage : value)
    : gmap string value :=
  list_to_map
    [("timestamp", VTimestamp ts);
     ("block_number", VInt (block_number entry));
     ("issued_tao", VFloat issued_tao);
     ("staked_tao", VFloat staked_tao);
     ("staked_percentage", staked_percentage);
     ("accounts", VInt (accounts entry));
     ("balance_holders", VInt (balance_holders entry))]%string.

Section normalisation.
  (** [pd.to_datetime(s)]: the instant a timestamp string denotes. *)
  Variable to_datetime : string → result Z.
  (** [datetime.fromisoformat(s.replace('Z', '+00:00')).strftime("%Y-%m-%d")]:
      the calendar date of a timestamp string, which is its UTC date for
      the timestamps of the API (they end in [Z]). *)
  Variable date_str_of : string → result string.

(** The body of the loop [for entry in raw_data], up to
    [processed_data.append(data_point)]. [price_data] is [None] when no
    USD columns are computed. *)
Definition process_entry (include_usd : bool)
    (price_data : option (gmap string pyfloat)) (entry : raw_record)
    : result (gmap string value) :=
  let issued := issued entry in
  let staked := staked entry in
  staked_percentage ←
    (if 0 <? issued
     then ratio ← int_truediv staked issued; Ok (VFloat (fmul ratio (Finite 100)))
     else Ok (VInt 0));
  issued_tao ← (x ← float_of_int issued; fdiv x (Finite 1000000000));
  staked_tao ← (x ← float_of_int staked; fdiv x (Finite 1000000000));
  let circulating_tao := fsub issued_tao staked_tao in
  ts ← to_datetime (timestamp entry);
  circulating_percentage ←
    (if fpositive issued_tao
     then ratio ← fdiv circulating_tao issued_tao;
          Ok (VFloat (fmul ratio (Finite 100)))
     else Ok (VInt 0));
  let data_point :=
    base_data_point ts entry issued_tao staked_tao circulating_tao
      staked_percentage circulating_percentage in
  match include_usd, price_data with
  | true, Some price_data =>
      date_str ← date_str_of (timestamp entry);
      match resolve_price price_data date_str with
      | Some tao_price_usd =>
          Ok (usd_update issued_tao staked_tao circulating_tao tao_price_usd
                data_point)
      | None => Ok data_point
      end
  | _, _ => Ok data_point
  end.

(** The loop over [raw_data]: the rows in the order of the records; the
    first exception ends it. *)
Fixpoint process_entries (include_usd : bool)
    (price_data : option (gmap string pyfloat)) (raw_data : list raw_record)
    : result (list (gmap string value)) :=
  match raw_data with
  | [] => Ok []
  | entry :: rest =>
      data_point ← process_entry include_usd price_data entry;
      processed_data ← process_entries include_usd price_data rest;
      Ok (data_point :: processed_data)
  end.

(** [process_data(raw_data, include_usd, price_data)]. [cache] is what
    [self.get_or_fetch_price_data()] returns, used when USD columns are
    asked for and no price map is passed. The data frame is the list of
    its rows; a frame built from no rows has no ['timestamp'] column, and
    sorting it by that column raises [KeyError]. *)
Definition process_data (cache : result (gmap string pyfloat))
    (raw_data : list raw_record) (include_usd : bool)
    (price_data : option (gmap string pyfloat))
    : result (list (gmap string value)) :=
  price_data ←
    (match include_usd, price_data with
     | true, None => prices ← cache; Ok (Some prices)
     | true, Some prices => Ok (Some prices)
     | false, _ => Ok None
     end);
  processed_data ← process_entries include_usd price_data raw_data;
  match processed_data with
  | [] => Exn
  | _ :: _ => Ok (sort_values processed_data)
  end.

(** [process_data(raw_data)] of the older [tao_stats_visualizer.py]: no
    circulating supply and no USD columns. *)
Definition process_entry_v1 (entry : raw_record) : result (gmap string value) :=
  let issued := issued entry in
  let staked := staked entry in
  staked_percentage ←
    (if 0 <? issued
     then ratio ← int_truediv staked issued; Ok (VFloat (fmul ratio (Finite 100)))
     else Ok (VInt 0));
  issued_tao ← (x ← float_of_int issued; fdiv x (Finite 1000000000));
  staked_tao ← (x ← float_of_int staked; fdiv x (Finite 1000000000));
  ts ← to_datetime (timestamp entry);
  Ok (base_data_point_v1 ts entry issued_tao staked_tao staked_percentage).

Fixpoint process_entries_v1 (raw_data : list raw_record)
    : result (list (gmap string value)) :=
  match raw_data with
  | [] => Ok []
  | entry :: rest =>
      data_point ← process_entry_v1 entry;
      processed_data ← process_entries_v1 rest;
      Ok (data_point :: processed_data)
  end.

Definition process_data_v1 (raw_data : list raw_record)
    : result (list (gmap string value)) :=
  processed_data ← process_entries_v1 raw_data;
  match processed_data with
  | [] => Exn
  | _ :: _ => Ok (sort_values processed_data)
  end.

End normalisation.

(** *** Sample records *)

(** The instants (seconds since the epoch) of three timestamps. *)
Definition sample_to_datetime (s : string) : result Z :=
  if String.eqb s "2024-01-01T00:00:00Z" then Ok 1704067200
  else if String.eqb s "2024-01-02T00:00:00Z" then Ok 1704153600
  else if String.eqb s "2024-01-03T00:00:00Z" then Ok 1704240000
  else Exn.

(** The date of a timestamp ending in [Z]: its first ten characters. *)
Definition sample_date_str_of (s : string) : result string :=
  if (10 <=? String.length s)%nat then Ok (String.substring 0 10 s) else Exn.

Definition record_jan_1 : raw_record :=
  RawRecord "2024-01-01T00:00:00Z" 100 21000000000000000 6000000000000000 10 5.

Definition record_jan_2 : raw_record :=
  RawRecord "2024-01-02T00:00:00Z" 200 21000000000000000 15750000000000000 12 6.

(** A second record with the timestamp of [record_jan_1]. *)
Definition record_jan_1_again : raw_record :=
  RawRecord "2024-01-01T00:00:00Z" 101 21000000000000000 6300000000000000 10 5.

Definition sample_prices : gmap string pyfloat :=
  {[ "2024-01-01"%string := Finite 100 ]} ∪ {[ "2024-01-05"%string := Finite 110 ]}.

(** The frame of two records with the same timestamp. *)
Definition duplicate_frame : list (gmap string value) :=
  from_Ok []
    (process_data sample_to_datetime sample_date_str_of Exn
       [record_jan_1; record_jan_1_again] false None).

(** The frame of two sample records, given in descending order, with the
    sample prices. *)
Definition sample_frame : list (gmap string value) :=
  from_Ok []
    (process_data sample_to_datetime sample_date_str_of Exn
       [record_jan_2; record_jan_1] true (Some sample_prices)).

(** What the USD columns of one row hold. *)
Definition usd_columns (price_data : gmap string pyfloat) (date_str : string)
    (data_point : gmap string value) : Prop :=
  ∃ issued_tao staked_tao circulating_tao,
    data_point !! "issued_tao"%string = Some (VFloat issued_tao)
    ∧ data_point !! "staked_tao"%string = Some (VFloat staked_tao)
    ∧ data_point !! "circulating_tao"%string = Some (VFloat circulating_tao)
    ∧ match get_price_for_date price_data date_str with
      | Some price =>
          data_point !! "tao_price_usd"%string = Some (VFloat price)
          ∧ data_point !! "total_market_cap_usd"%string
              = Some (VFloat (fmul issued_tao price))
          ∧ data_point !! "staked_market_cap_usd"%string
              = Some (VFloat (fmul staked_tao price))
          ∧ data_point !! "circulating_market_cap_usd"%string
              = Some (VFloat (fmul circulating_tao price))
      | None => ∀ k, k ∈ usd_fields → data_point !! k = None
      end
    ∧ ((∀ k, k ∈ usd_fields → is_Some (data_point !! k))
       ∨ (∀ k, k ∈ usd_fields → data_point !! k = None)).

(** The row of the first sample record. *)
Definition row_jan_1 : gmap string value :=
  from_Ok ∅
    (process_entry sample_to_datetime sample_date_str_of true
       (Some sample_prices) record_jan_1).

(** A response after which the retry loop tries the page again (when
    attempts remain). *)
Definition is_failure {R} (r : response R) : Prop :=
  r = Status429 ∨ is_error r.

(** The number of times a page occurs in a list of requested pages. *)
Definition count_page (page : Z) (pages : list Z) : nat :=
  length (filter (λ p, p = page) pages).

(** Every request is answered with status 429. *)
Definition always_rate_limited (n : nat) (page : Z) : response Z := Status429.

(** Two pages; the first is rate-limited once and the second fails once
    with a transport error before succeeding. *)
Definition flaky_two_pages (n : nat) (page : Z) : response Z :=
  match n with
  | 0%nat => Status429
  | 2%nat => TransportError
  | _ => Success (Body (Some [10 * page; 10 * page + 1]) (Some (Some 2)))
  end.

(** Page 1 succeeds and announces three pages; page 2 fails with an HTTP
    error on every attempt. *)
Definition page_2_unreachable (n : nat) (page : Z) : response Z :=
  if page =? 1
  then Success (Body (Some [10; 11]) (Some (Some 3)))
  else HttpError.

(** Page 1 succeeds and announces two pages; the body of page 2 is JSON
    that the code cannot read. *)
Definition page_2_malformed (n : nat) (page : Z) : response Z :=
  if page =? 1
  then Success (Body (Some [10; 11]) (Some (Some 2)))
  else Malformed.

(** A record with no supply at all. *)
Definition record_zero_supply : raw_record :=
  RawRecord "2024-01-03T00:00:00Z" 300 0 0 0 0.

Definition row_zero_supply : gmap string value :=
  from_Ok ∅
    (process_entry sample_to_datetime sample_date_str_of false None
       record_zero_supply).

(** A record whose whole supply is staked, and one with no stake. *)
Definition record_fully_staked : raw_record :=
  RawRecord "2024-01-03T00:00:00Z" 300 21000000000000000 21000000000000000 12 6.

Definition record_unstaked : raw_record :=
  RawRecord "2024-01-03T00:00:00Z" 300 21000000000000000 0 12 6.

Definition row_fully_staked : gmap string value :=
  from_Ok ∅
    (process_entry sample_to_datetime sample_date_str_of false None
       record_fully_staked).

Definition row_unstaked : gmap string value :=
  from_Ok ∅
    (process_entry sample_to_datetime sample_date_str_of false None
       record_unstaked).

(** ** The frame with its index *)

(** [pd.DataFrame(processed_data)] with its index: the row built from the
    element at position [i] of the list gets the label [i] (a
    [RangeIndex]). *)
Definition DataFrame (processed_data : list (gmap string value))
    : list (nat * gmap string value) :=
  zip (seq 0 (length processed_data)) processed_data.

(** The order of [df.sort_values('timestamp')] on labelled rows. *)
Definition labelled_le (a b : nat * gmap string value) : Prop :=
  timestamp_le a.2 b.2.

Global Instance labelled_le_dec : RelDecision labelled_le.
Proof. intros a b. unfold labelled_le. apply _. Defined.

(** [df.sort_values('timestamp')] on a frame with its index: the rows
    move together with their labels ([ignore_index=False]). *)
Definition sort_values_labelled (df : list (nat * gmap string value))
    : list (nat * gmap string value) :=
  merge_sort labelled_le df.

Section labelled_frame.
  Variable to_datetime : string → result Z.
  Variable date_str_of : string → result string.

(** The price map that [process_data] works with: the first statements
    of the function, [if include_usd and price_data is None: ... elif not
    include_usd: price_data = None]. *)
Definition price_data_used (cache : result (gmap string pyfloat))
    (include_usd : bool) (price_data : option (gmap string pyfloat))
    : result (option (gmap string pyfloat)) :=
  match include_usd, price_data with
  | true, None => prices ← cache; Ok (Some prices)
  | true, Some prices => Ok (Some prices)
  | false, _ => Ok None
  end.

(** [process_data(raw_data, include_usd, price_data)], the returned frame
    with its index labels. *)
Definition process_data_frame (cache : result (gmap string pyfloat))
    (raw_data : list raw_record) (include_usd : bool)
    (price_data : option (gmap string pyfloat))
    : result (list (nat * gmap string value)) :=
  price_data ← price_data_used cache include_usd price_data;
  processed_data ←
    process_entries to_datetime date_str_of include_usd price_data raw_data;
  match processed_data with
  | [] => Exn
  | _ :: _ => Ok (sort_values_labelled (DataFrame processed_data))
  end.

End labelled_frame.

(** The labelled frames of the two sample records, given in descending
    and in ascending order. *)
Definition sample_frame_descending : list (nat * gmap string value) :=
  from_Ok []
    (process_data_frame sample_to_datetime sample_date_str_of Exn
       [record_jan_2; record_jan_1] true (Some sample_prices)).

Definition sample_frame_ascending : list (nat * gmap string value) :=
  from_Ok []
    (process_data_frame sample_to_datetime sample_date_str_of Exn
       [record_jan_1; record_jan_2] true (Some sample_prices)).

(** * Properties *)

(** ** Nearest-date price resolution *)

Section lookup_facts.
  Context {P : Type}.
  Implicit Types (price_data : gmap string P) (d k : string).

Lemma str_ge_le k d : str_ge k d = true ↔ String.le d k.
  Proof. unfold str_ge, String.le. by rewrite Is_true_true. Qed.

Lemma elem_of_sorted_keys price_data k :
    k ∈ sorted (keys price_data) ↔ k ∈ dom price_data.
  Proof.
    unfold sorted, keys.
    by rewrite (merge_sort_Permutation String.le), elem_of_elements.
  Qed.

Lemma sorted_keys_StronglySorted price_data :
    StronglySorted String.le (sorted (keys price_data)).
  Proof. apply StronglySorted_merge_sort; apply _. Qed.

Lemma sorted_keys_nil price_data :
    sorted (keys price_data) = [] ↔ price_data = ∅.
  Proof.
    split.
    - intros Hnil. apply map_eq. intros k. rewrite lookup_empty.
      destruct (price_data !! k) eqn:Hk; [|done].
      assert (k ∈ sorted (keys price_data)) as Hin
        by (apply elem_of_sorted_keys, elem_of_dom; eauto).
      rewrite Hnil in Hin. by apply elem_of_nil in Hin.
    - intros ->. unfold sorted, keys. by rewrite dom_empty_L, elements_empty.
  Qed.

Lemma scan_dates_first_from price_data l d :
    scan_dates price_data l d = first_from l d ≫= (price_data !!.).
  Proof.
    induction l as [|k l IH]; simpl; [done|]. by destruct (str_ge k d).
  Qed.

Lemma first_from_Some l d k :
    StronglySorted String.le l → first_from l d = Some k →
    k ∈ l ∧ String.le d k ∧ ∀ k', k' ∈ l → String.le d k' → String.le k k'.
  Proof.
    induction 1 as [|a l Hl IH Ha]; simpl; [done|].
    destruct (str_ge a d) eqn:Hge.
    - intros [= <-]. apply str_ge_le in Hge. split_and!; [left|done|].
      intros k' [->|Hk']%elem_of_cons _; [done|].
      by eapply Forall_forall in Ha.
    - intros (Hin & Hle & Hmin)%IH. split_and!; [by right|done|].
      intros k' [->|Hk']%elem_of_cons Hd; [|by apply Hmin].
      apply str_ge_le in Hd. congruence.
  Qed.

Lemma first_from_None l d k :
    first_from l d = None → k ∈ l → ¬ String.le d k.
  Proof.
    induction l as [|a l IH]; simpl; [by intros _ ?%elem_of_nil|].
    destruct (str_ge a d) eqn:Hge; [done|].
    intros Hnone [->|Hk]%elem_of_cons; [|by apply IH].
    rewrite <-str_ge_le. congruence.
  Qed.

Lemma last_StronglySorted l k :
    StronglySorted String.le l → last l = Some k →
    k ∈ l ∧ ∀ k', k' ∈ l → String.le k' k.
  Proof.
    induction 1 as [|a l Hl IH Ha]; [done|].
    destruct l as [|b l]; simpl.
    - intros [= <-]. split; [left|]. by intros k' ->%list_elem_of_singleton.
    - intros Hlast. destruct (IH Hlast) as [Hin Hmax]. split; [by right|].
      intros k' [->|Hk']%elem_of_cons; [|by apply Hmax].
      by eapply Forall_forall in Ha.
  Qed.

Lemma lookup_key_is_Some price_data k :
  k ∈ dom price_data → is_Some (price_data !! k).
Proof. by rewrite elem_of_dom. Qed.

(** What the scan over the sorted keys finds: the price of the smallest
    key on or after [d] when there is one, and nothing otherwise. *)
Lemma scan_dates_least price_data d k :
  least_key_from price_data d k →
  scan_dates price_data (sorted (keys price_data)) d = price_data !! k.
Proof.
  intros (Hk & Hdk & Hmin). rewrite scan_dates_first_from.
  destruct (first_from _ d) as [k0|] eqn:Hfirst; simpl.
  - apply first_from_Some in Hfirst as (Hin & Hd0 & Hmin0);
      [|apply sorted_keys_StronglySorted].
    apply elem_of_sorted_keys in Hin.
    assert (k0 = k) as ->; [|done].
    apply (anti_symm String.le).
    + apply Hmin0; [by apply elem_of_sorted_keys|done].
    + by apply Hmin.
  - exfalso. eapply first_from_None; [done| |done]. by apply elem_of_sorted_keys.
Qed.

Lemma scan_dates_none price_data d :
  (∀ k, k ∈ dom price_data → ¬ String.le d k) →
  scan_dates price_data (sorted (keys price_data)) d = None.
Proof.
  intros Hall. rewrite scan_dates_first_from.
  destruct (first_from _ d) as [k0|] eqn:Hfirst; [|done].
  apply first_from_Some in Hfirst as (Hin & Hd0 & _);
    [|apply sorted_keys_StronglySorted].
  apply elem_of_sorted_keys in Hin. by destruct (Hall k0).
Qed.

Lemma last_sorted_keys_max price_data k :
  max_key price_data k → last (sorted (keys price_data)) = Some k.
Proof.
  intros [Hk Hmax].
  destruct (last (sorted (keys price_data))) as [k0|] eqn:Hlast.
  - apply last_StronglySorted in Hlast as [Hin Hmax0];
      [|apply sorted_keys_StronglySorted].
    f_equal. apply (anti_symm String.le).
    + apply Hmax. by apply elem_of_sorted_keys.
    + apply Hmax0. by apply elem_of_sorted_keys.
  - apply last_None in Hlast. apply sorted_keys_nil in Hlast. set_solver.
Qed.

(** The inline lookup of [process_data] computes what the helper
    [get_price_for_date] computes. *)
Lemma resolve_price_get_price_for_date price_data d :
  resolve_price price_data d = get_price_for_date price_data d.
Proof.
  unfold resolve_price, get_price_for_date.
  destruct (price_data !! d); [done|]. simpl.
  destruct (scan_dates _ _ d); simpl;
    [by destruct (sorted (keys price_data))|].
  destruct (sorted (keys price_data)) as [|k l] eqn:Hs; [done|].
  destruct (last (k :: l)) eqn:Hlast; [done|]. by apply last_None in Hlast.
Qed.

(** On a non-empty map the lookup always yields a price. *)
Lemma get_price_for_date_is_Some price_data d :
  price_data ≠ ∅ → is_Some (get_price_for_date price_data d).
Proof.
  intros Hne. unfold get_price_for_date.
  destruct (price_data !! d); [by eexists|].
  destruct (scan_dates _ _ d); [by eexists|].
  destruct (last (sorted (keys price_data))) as [k|] eqn:Hlast.
  - apply last_StronglySorted in Hlast as [Hin _];
      [|apply sorted_keys_StronglySorted].
    by apply lookup_key_is_Some, elem_of_sorted_keys.
  - apply last_None, sorted_keys_nil in Hlast. done.
Qed.

(** C1. Nearest-date resolution, for [get_price_for_date] and for the
    inline copy in [process_data]: on the empty map no price is returned;
    on a non-empty map a price always is, and it is the price of the
    target date [d] when [d] is a key, otherwise the price of the smallest
    key on or after [d], otherwise (every key is before [d]) the price of
    the largest key. *)
Theorem get_price_for_date_nearest price_data d :
  resolve_price price_data d = get_price_for_date price_data d ∧
  (price_data = ∅ → get_price_for_date price_data d = None) ∧
  (price_data ≠ ∅ → is_Some (get_price_for_date price_data d)) ∧
  (∀ p, price_data !! d = Some p →
        get_price_for_date price_data d = Some p) ∧
  (price_data !! d = None →
   ∀ k, least_key_from price_data d k →
        ∃ p, price_data !! k = Some p ∧
             get_price_for_date price_data d = Some p) ∧
  (price_data !! d = None →
   (∀ k, k ∈ dom price_data → ¬ String.le d k) →
   ∀ k, max_key price_data k →
        ∃ p, price_data !! k = Some p ∧
             get_price_for_date price_data d = Some p).
Proof.
  split_and!.
  - apply resolve_price_get_price_for_date.
  - intros ->. unfold get_price_for_date. rewrite lookup_empty.
    by replace (sorted (keys (∅ : gmap string P))) with (@nil string)
      by (symmetry; by apply sorted_keys_nil).
  - apply get_price_for_date_is_Some.
  - intros p Hp. unfold get_price_for_date. by rewrite Hp.
  - intros Hd k Hk. unfold get_price_for_date. rewrite Hd. simpl.
    rewrite (scan_dates_least _ _ _ Hk).
    destruct Hk as [[p Hp]%lookup_key_is_Some _]. rewrite Hp. eauto.
  - intros Hd Hall k Hk. unfold get_price_for_date. rewrite Hd. simpl.
    rewrite scan_dates_none by done.
    rewrite (last_sorted_keys_max _ _ Hk).
    destruct Hk as [[p Hp]%lookup_key_is_Some _]. rewrite Hp. eauto.
Qed.

End lookup_facts.

(** ** The paginated fetch *)

Lemma requests_app evs1 evs2 :
  requests (evs1 ++ evs2) = requests evs1 ++ requests evs2.
Proof. apply omap_app. Qed.

Lemma sleeps_app evs1 evs2 : sleeps (evs1 ++ evs2) = sleeps evs1 ++ sleeps evs2.
Proof. apply omap_app. Qed.

Lemma requests_Request p evs : requests (Request p :: evs) = p :: requests evs.
Proof. done. Qed.

Lemma requests_Sleep s evs : requests (Sleep s :: evs) = requests evs.
Proof. done. Qed.

Lemma sleeps_Request p evs : sleeps (Request p :: evs) = sleeps evs.
Proof. done. Qed.

Lemma sleeps_Sleep s evs : sleeps (Sleep s :: evs) = s :: sleeps evs.
Proof. done. Qed.

Lemma page_trace_cons p q pages :
  page_trace (p :: q :: pages) = Request p :: Sleep 3 :: page_trace (q :: pages).
Proof. done. Qed.

Lemma requests_page_trace pages : requests (page_trace pages) = pages.
Proof.
  induction pages as [|p [|q pages] IH]; [done..|].
  by rewrite page_trace_cons, requests_Request, requests_Sleep, IH.
Qed.

Lemma sleeps_page_trace pages :
  sleeps (page_trace pages) = replicate (pred (length pages)) 3.
Proof.
  induction pages as [|p [|q pages] IH]; [done..|].
  by rewrite page_trace_cons, sleeps_Request, sleeps_Sleep, IH.
Qed.

Section fetch_facts.
  Context {R : Type} (transport : nat → Z → response R).
  Implicit Types (page : Z) (all_data : list R) (b : body R).

(** One iteration of the retry loop, by the response it meets. *)
Lemma retry_loop_429 fuel max_retries retry_count n page all_data :
  (retry_count < max_retries)%nat →
  transport n page = Status429 →
  retry_loop transport (S fuel) max_retries retry_count n page all_data =
    let '(ex, n', evs) :=
      retry_loop transport fuel max_retries (S retry_count) (S n) page all_data in
    (ex, n', Request page :: Sleep (5 + 2 ^ Z.of_nat retry_count) :: evs).
Proof.
  intros Hlt Hresp. simpl.
  apply Nat.ltb_lt in Hlt. by rewrite Hlt, Hresp.
Qed.

Lemma retry_loop_error_retry fuel max_retries retry_count n page all_data :
  (S retry_count < max_retries)%nat →
  is_error (transport n page) →
  retry_loop transport (S fuel) max_retries retry_count n page all_data =
    let '(ex, n', evs) :=
      retry_loop transport fuel max_retries (S retry_count) (S n) page all_data in
    (ex, n', Request page :: Sleep (2 ^ Z.of_nat (S retry_count)) :: evs).
Proof.
  intros Hlt Hresp. simpl.
  assert ((retry_count <? max_retries)%nat = true) as ->
    by (apply Nat.ltb_lt; lia).
  apply Nat.ltb_lt in Hlt.
  destruct Hresp as [-> | ->]; by rewrite Hlt.
Qed.

Lemma retry_loop_error_last fuel max_retries retry_count n page all_data :
  (retry_count < max_retries)%nat → ¬ (S retry_count < max_retries)%nat →
  is_error (transport n page) →
  retry_loop transport (S fuel) max_retries retry_count n page all_data =
    (ExitReturn all_data, S n, [Request page]).
Proof.
  intros Hlt Hlast Hresp. simpl.
  apply Nat.ltb_lt in Hlt. apply Nat.ltb_nlt in Hlast.
  rewrite Hlt. destruct Hresp as [-> | ->]; by rewrite Hlast.
Qed.

Lemma retry_loop_no_data fuel max_retries retry_count n page all_data b :
  (retry_count < max_retries)%nat →
  transport n page = Success b →
  data b = None ∨ data b = Some [] →
  retry_loop transport (S fuel) max_retries retry_count n page all_data =
    (ExitReturn all_data, S n, [Request page]).
Proof.
  intros Hlt Hresp Hdata. simpl.
  apply Nat.ltb_lt in Hlt. rewrite Hlt, Hresp.
  by destruct Hdata as [-> | ->].
Qed.

Lemma retry_loop_data fuel max_retries retry_count n page all_data b page_data :
  (retry_count < max_retries)%nat →
  transport n page = Success b →
  data b = Some page_data → page_data ≠ [] →
  retry_loop transport (S fuel) max_retries retry_count n page all_data =
    if page >=? total_pages_of b
    then (ExitReturn (all_data ++ page_data), S n, [Request page])
    else (ExitLoop (all_data ++ page_data), S n, [Request page]).
Proof.
  intros Hlt Hresp Hdata Hne. simpl.
  apply Nat.ltb_lt in Hlt. rewrite Hlt, Hresp, Hdata.
  by destruct page_data.
Qed.

Lemma retry_loop_exhausted fuel max_retries retry_count n page all_data :
  ¬ (retry_count < max_retries)%nat →
  retry_loop transport fuel max_retries retry_count n page all_data =
    (ExitLoop all_data, n, []).
Proof.
  intros Hlt. apply Nat.ltb_nlt in Hlt.
  destruct fuel; simpl; by rewrite Hlt.
Qed.

(** The first request of a page, when its response decides the page. *)
Lemma page_loop_no_data fuel page n all_data b :
  transport n page = Success b →
  data b = None ∨ data b = Some [] →
  page_loop transport (S fuel) MAX_RETRIES page n all_data =
    (Returned all_data, [Request page]).
Proof.
  intros Hresp Hdata. unfold MAX_RETRIES.
  cbn [page_loop]. by rewrite (retry_loop_no_data _ _ _ _ _ _ b) by (done || lia).
Qed.

Lemma page_loop_last_page fuel page n all_data b page_data :
  transport n page = Success b →
  data b = Some page_data → page_data ≠ [] →
  total_pages_of b ≤ page →
  page_loop transport (S fuel) MAX_RETRIES page n all_data =
    (Returned (all_data ++ page_data), [Request page]).
Proof.
  intros Hresp Hdata Hne Hlast. unfold MAX_RETRIES. cbn [page_loop].
  rewrite (retry_loop_data _ _ _ _ _ _ b page_data) by (done || lia).
  by rewrite (proj2 (Z.geb_le _ _)).
Qed.

Lemma page_loop_next_page fuel page n all_data b page_data :
  transport n page = Success b →
  data b = Some page_data → page_data ≠ [] →
  page < total_pages_of b →
  page_loop transport (S fuel) MAX_RETRIES page n all_data =
    let '(out, evs) :=
      page_loop transport fuel MAX_RETRIES (page + 1) (S n)
        (all_data ++ page_data) in
    (out, Request page :: Sleep 3 :: evs).
Proof.
  intros Hresp Hdata Hne Hnext. unfold MAX_RETRIES. cbn [page_loop].
  rewrite (retry_loop_data _ _ _ _ _ _ b page_data) by (done || lia).
  assert ((page >=? total_pages_of b) = false) as ->; [|done].
  apply not_true_is_false. rewrite Z.geb_le. lia.
Qed.

(** A well-behaved upstream: every request for a page in
    [1..total_pages] succeeds with the non-empty records [pages page] and
    reports [total_pages]. *)
Lemma page_loop_paginated (total_pages : Z) (pages : Z → list R) (m : nat) :
  (∀ n page, 1 ≤ page ≤ total_pages →
     transport n page = Success (Body (Some (pages page)) (Some (Some total_pages)))
     ∧ pages page ≠ []) →
  ∀ fuel page n all_data,
    1 ≤ page → page + Z.of_nat m = total_pages → (m < fuel)%nat →
    page_loop transport fuel MAX_RETRIES page n all_data =
      (Returned (all_data ++ concat (pages <$> seqZ page (Z.of_nat (S m)))),
       page_trace (seqZ page (Z.of_nat (S m)))).
Proof.
  intros Hup. induction m as [|m IH]; intros fuel page n all_data Hpage Hm Hfuel;
    (destruct fuel as [|fuel]; [lia|]);
    (assert (1 ≤ page ≤ total_pages) as Hrange by lia);
    destruct (Hup n page Hrange) as [Hresp Hne].
  - rewrite (page_loop_last_page _ _ _ _ _ (pages page) Hresp);
      [|done|done|unfold total_pages_of; simpl; lia].
    rewrite (seqZ_cons page (Z.of_nat 1)), seqZ_nil by lia.
    simpl. by rewrite app_nil_r.
  - rewrite (page_loop_next_page _ _ _ _ _ (pages page) Hresp);
      [|done|done|unfold total_pages_of; simpl; lia].
    rewrite (IH fuel (page + 1)) by lia.
    rewrite (seqZ_cons page (Z.of_nat (S (S m)))) by lia.
    replace (Z.pred (Z.of_nat (S (S m)))) with (Z.of_nat (S m)) by lia.
    replace (Z.succ page) with (page + 1) by lia.
    rewrite fmap_cons, concat_cons, (assoc_L (++)).
    f_equal.
    rewrite (seqZ_cons (page + 1) (Z.of_nat (S m))) by lia.
    done.
Qed.

End fetch_facts.

(** C4. Pagination. Against an upstream that reports [total_pages] and
    answers every request for a page in [1..total_pages] with non-empty
    records, [fetch_all_data] returns (given fuel for [total_pages]
    iterations) the concatenation of the records of pages
    [1..total_pages]; it requests exactly the pages [1, 2, ...,
    total_pages] in this order, once each, so page [total_pages + 1] is
    never requested. And whatever the upstream, a response whose [data]
    is absent or empty makes the fetch return the records accumulated so
    far. *)
Theorem fetch_all_data_paginates {R} (transport : nat → Z → response R) :
  (∀ (total_pages : Z) (pages : Z → list R) (fuel : nat),
     1 ≤ total_pages →
     (∀ n page, 1 ≤ page ≤ total_pages →
        transport n page =
          Success (Body (Some (pages page)) (Some (Some total_pages)))
        ∧ pages page ≠ []) →
     (Z.to_nat total_pages ≤ fuel)%nat →
     fetch_all_data transport fuel =
       (Returned (concat (pages <$> seqZ 1 total_pages)),
        page_trace (seqZ 1 total_pages))
     ∧ requests (page_trace (seqZ 1 total_pages)) = seqZ 1 total_pages
     ∧ total_pages + 1 ∉ requests (page_trace (seqZ 1 total_pages))) ∧
  (∀ fuel page n all_data b,
     transport n page = Success b →
     data b = None ∨ data b = Some [] →
     page_loop transport (S fuel) MAX_RETRIES page n all_data =
       (Returned all_data, [Request page])
     ∧ ∀ max_retries retry_count,
         (retry_count < max_retries)%nat →
         retry_loop transport (S fuel) max_retries retry_count n page all_data =
           (ExitReturn all_data, S n, [Request page])).
Proof.
  split.
  - intros total_pages pages fuel Htotal Hup Hfuel.
    rewrite requests_page_trace. split_and!; [|done|].
    + unfold fetch_all_data.
      rewrite (page_loop_paginated transport total_pages pages
                 (Z.to_nat (total_pages - 1)) Hup) by lia.
      by replace (Z.of_nat (S (Z.to_nat (total_pages - 1)))) with total_pages by lia.
    + rewrite elem_of_seqZ. lia.
  - intros fuel page n all_data b Hresp Hdata. split.
    + by eapply page_loop_no_data.
    + intros max_retries retry_count Hlt. by eapply retry_loop_no_data.
Qed.

Lemma fetch_all_data_paginates_witness :
  fetch_all_data three_pages 3 =
    (Returned [10; 11; 20; 21; 30; 31],
     [Request 1; Sleep 3; Request 2; Sleep 3; Request 3])
  ∧ requests [Request 1; Sleep 3; Request 2; Sleep 3; Request 3] = [1; 2; 3]
  ∧ 3 + 1 ∉ requests [Request 1; Sleep 3; Request 2; Sleep 3; Request 3].
Proof.
  apply (proj1 (fetch_all_data_paginates three_pages) 3
           (λ page, [10 * page; 10 * page + 1]) 3%nat).
  - lia.
  - intros n page Hpage. unfold three_pages.
    destruct (Z.leb_spec page 3); [done|lia].
  - simpl. lia.
Defined.

Section fetch_invariants.
  Context {R : Type} (transport : nat → Z → response R).

(** The retry loop of a page requests that page only. *)
Lemma retry_loop_requests fuel max_retries retry_count n page (all_data : list R) :
  Forall (λ p, p = page)
    (requests (retry_loop transport fuel max_retries retry_count n page all_data).2).
Proof.
  revert retry_count n.
  induction fuel as [|fuel IH]; intros retry_count n; simpl;
    destruct (retry_count <? max_retries)%nat; simpl; try by constructor.
  destruct (transport n page) as [| | | |b].
  - destruct (S retry_count <? max_retries)%nat; [|by repeat constructor].
    specialize (IH (S retry_count) (S n)).
    destruct (retry_loop _ _ _ _ _ _ _) as [[ex n'] evs]. by constructor.
  - specialize (IH (S retry_count) (S n)).
    destruct (retry_loop _ _ _ _ _ _ _) as [[ex n'] evs]. by constructor.
  - destruct (S retry_count <? max_retries)%nat; [|by repeat constructor].
    specialize (IH (S retry_count) (S n)).
    destruct (retry_loop _ _ _ _ _ _ _) as [[ex n'] evs]. by constructor.
  - by repeat constructor.
  - destruct (data b) as [[|r page_data]|]; [by repeat constructor| |by repeat constructor].
    destruct (page >=? total_pages_of b); by repeat constructor.
Qed.

(** The page cursor only grows: every page requested from the state
    [page] on is [page] or a later one. *)
Lemma page_loop_requests fuel max_retries page n (all_data : list R) :
  Forall (λ p, page ≤ p)
    (requests (page_loop transport fuel max_retries page n all_data).2).
Proof.
  revert page n all_data.
  induction fuel as [|fuel IH]; intros page n all_data; simpl; [by constructor|].
  pose proof (retry_loop_requests max_retries max_retries 0 n page all_data) as Hreq.
  destruct (retry_loop _ _ _ _ _ _ _) as [[ex n'] evs]. simpl in Hreq.
  assert (Forall (λ p, page ≤ p) (requests evs)) as Hevs.
  { eapply Forall_impl; [done|]. simpl. lia. }
  destruct ex as [all_data'|all_data'| |]; simpl; try done.
  specialize (IH (page + 1) n' all_data').
  destruct (page_loop _ _ _ _ _ _) as [out evs']. simpl in *.
  rewrite requests_app, requests_Sleep. apply Forall_app. split; [done|].
  eapply Forall_impl; [done|]. simpl. lia.
Qed.

End fetch_invariants.

(** C10. A successful response with non-empty [data] and no
    [total_pages] (no ['pagination'] object, or one without the key) is
    read as [total_pages = 1]. The page cursor is at least 1 throughout
    the fetch, so the test [page >= total_pages] holds and the fetch
    returns right after appending the records of that page, with no
    further request, whatever the upstream would answer for later
    pages. *)
Theorem missing_total_pages_stops_fetch {R} (transport : nat → Z → response R)
    fuel page n (all_data : list R) b page_data :
  1 ≤ page →
  transport n page = Success b →
  data b = Some page_data → page_data ≠ [] →
  pagination b = None ∨ pagination b = Some None →
  total_pages_of b = 1
  ∧ (page >=? total_pages_of b) = true
  ∧ Forall (λ p, 1 ≤ p) (requests (fetch_all_data transport fuel).2)
  ∧ page_loop transport (S fuel) MAX_RETRIES page n all_data =
      (Returned (all_data ++ page_data), [Request page])
  ∧ ∀ max_retries retry_count,
      (retry_count < max_retries)%nat →
      retry_loop transport (S fuel) max_retries retry_count n page all_data =
        (ExitReturn (all_data ++ page_data), S n, [Request page]).
Proof.
  intros Hpage Hresp Hdata Hne Hpag.
  assert (total_pages_of b = 1) as Htotal.
  { unfold total_pages_of. by destruct Hpag as [-> | ->]. }
  split_and!; [done| | | |].
  - rewrite Htotal. apply Z.geb_le. lia.
  - apply page_loop_requests.
  - eapply page_loop_last_page; [done..|lia].
  - intros max_retries retry_count Hlt.
    rewrite (retry_loop_data transport _ _ _ _ _ _ b page_data) by done.
    rewrite Htotal. by rewrite (proj2 (Z.geb_le _ _)) by lia.
Qed.

Lemma missing_total_pages_stops_fetch_witness :
  total_pages_of (Body (Some [10; 11]) None) = 1
  ∧ (1 >=? total_pages_of (Body (Some [10; 11]) None)) = true
  ∧ Forall (λ p, 1 ≤ p) (requests (fetch_all_data no_pagination 4).2)
  ∧ page_loop no_pagination 5 MAX_RETRIES 1 0 [] =
      (Returned ([] ++ [10; 11]), [Request 1])
  ∧ ∀ max_retries retry_count,
      (retry_count < max_retries)%nat →
      retry_loop no_pagination 5 max_retries retry_count 0 1 [] =
        (ExitReturn ([] ++ [10; 11]), 1%nat, [Request 1]).
Proof.
  apply (missing_total_pages_stops_fetch no_pagination 4 1 0 []
           (Body (Some [10; 11]) None) [10; 11]).
  - lia.
  - reflexivity.
  - reflexivity.
  - discriminate.
  - left. reflexivity.
Defined.

(** C5, as stated, fails on the branch for the other errors: the counter
    is incremented before the wait is computed, so the first error
    (attempt 0) is followed by a wait of [2 ^ 1 = 2] seconds, not
    [2 ^ 0 = 1]. *)
Lemma error_backoff_counterexample :
  fetch_all_data error_then_success 1 =
    (Returned [7], [Request 1; Sleep 2; Request 1])
  ∧ sleeps (fetch_all_data error_then_success 1).2 ≠ [2 ^ Z.of_nat 0].
Proof. split; [reflexivity|discriminate]. Qed.

(** C5, amended. Within the retry loop of one page, with the counter
    [retry_count] starting at 0: a 429 response is followed by a wait
    of exactly [5 + 2 ^ retry_count] seconds, after which the counter is
    incremented and the loop goes on; any other transport or HTTP error
    first increments the counter and then, if the incremented counter is
    still below the cap, waits exactly [2 ^ (retry_count + 1)] seconds
    before the retry, and otherwise returns at once without waiting. In
    particular an upstream that answers 429 twice and then succeeds on
    the last page yields the waits [5 + 2 ^ 0] and [5 + 2 ^ 1] before the
    third, successful request. *)
Theorem retry_backoff_schedule {R} (transport : nat → Z → response R) :
  (∀ fuel max_retries retry_count n page all_data,
     (retry_count < max_retries)%nat →
     transport n page = Status429 →
     retry_loop transport (S fuel) max_retries retry_count n page all_data =
       let '(ex, n', evs) :=
         retry_loop transport fuel max_retries (S retry_count) (S n) page all_data in
       (ex, n', Request page :: Sleep (5 + 2 ^ Z.of_nat retry_count) :: evs)) ∧
  (∀ fuel max_retries retry_count n page all_data,
     (S retry_count < max_retries)%nat →
     is_error (transport n page) →
     retry_loop transport (S fuel) max_retries retry_count n page all_data =
       let '(ex, n', evs) :=
         retry_loop transport fuel max_retries (S retry_count) (S n) page all_data in
       (ex, n', Request page :: Sleep (2 ^ (Z.of_nat retry_count + 1)) :: evs)) ∧
  (∀ fuel max_retries retry_count n page all_data,
     (retry_count < max_retries)%nat → ¬ (S retry_count < max_retries)%nat →
     is_error (transport n page) →
     retry_loop transport (S fuel) max_retries retry_count n page all_data =
       (ExitReturn all_data, S n, [Request page])) ∧
  (∀ fuel b page_data,
     transport 0%nat 1 = Status429 →
     transport 1%nat 1 = Status429 →
     transport 2%nat 1 = Success b →
     data b = Some page_data → page_data ≠ [] → total_pages_of b ≤ 1 →
     fetch_all_data transport (S fuel) =
       (Returned page_data,
        [Request 1; Sleep (5 + 2 ^ 0); Request 1; Sleep (5 + 2 ^ 1); Request 1])).
Proof.
  split_and!.
  - intros. by apply retry_loop_429.
  - intros fuel max_retries retry_count n page all_data Hlt Herr.
    rewrite retry_loop_error_retry by done.
    by replace (Z.of_nat (S retry_count)) with (Z.of_nat retry_count + 1) by lia.
  - intros. by apply retry_loop_error_last.
  - intros fuel b page_data H0 H1 H2 Hdata Hne Htotal.
    unfold fetch_all_data, MAX_RETRIES. cbn [page_loop].
    rewrite retry_loop_429 by (done || lia).
    rewrite retry_loop_429 by (done || lia).
    rewrite (retry_loop_data transport _ _ _ _ _ _ b page_data) by (done || lia).
    by rewrite (proj2 (Z.geb_le _ _)) by done.
Qed.

Lemma retry_backoff_schedule_witness :
  fetch_all_data rate_limited_twice 1 =
    (Returned [7], [Request 1; Sleep 6; Request 1; Sleep 7; Request 1]).
Proof.
  apply (proj2 (proj2 (proj2 (retry_backoff_schedule rate_limited_twice)))
           0%nat (Body (Some [7]) (Some (Some 1))) [7]).
  - reflexivity.
  - reflexivity.
  - reflexivity.
  - reflexivity.
  - discriminate.
  - unfold total_pages_of. simpl. lia.
Defined.

(** ** Exhausted retries *)

Section exhaustion.
  Context {R : Type} (transport : nat → Z → response R).

(** When every attempt at a page fails with a transport or HTTP error,
    the [except] branch returns the records accumulated so far. *)
Lemma retry_loop_errors_return max_retries page (all_data : list R) :
  ∀ fuel retry_count n,
    (retry_count < max_retries)%nat →
    (max_retries - retry_count ≤ fuel)%nat →
    (∀ k, is_error (transport (n + k)%nat page)) →
    ∃ n' evs,
      retry_loop transport fuel max_retries retry_count n page all_data =
        (ExitReturn all_data, n', evs).
Proof.
  induction fuel as [|fuel IH]; intros retry_count n Hlt Hfuel Herr; [lia|].
  pose proof (Herr 0%nat) as Herr0. rewrite Nat.add_0_r in Herr0.
  destruct (decide (S retry_count < max_retries)%nat) as [Hmore|Hlast].
  - rewrite retry_loop_error_retry by done.
    destruct (IH (S retry_count) (S n)) as (n' & evs & ->); [done|lia| |by eauto].
    intros k. replace (S n + k)%nat with (n + S k)%nat by lia. apply Herr.
  - rewrite retry_loop_error_last by done. eauto.
Qed.

(** When every attempt at a page is answered with status 429, the retry
    loop runs out of attempts and is left through its loop condition:
    nothing is returned, and the code after the loop ([page += 1]) runs
    next. *)
Lemma retry_loop_429_falls_through max_retries page (all_data : list R) :
  ∀ fuel retry_count n,
    (max_retries - retry_count ≤ fuel)%nat →
    (∀ k, transport (n + k)%nat page = Status429) →
    ∃ n' evs,
      retry_loop transport fuel max_retries retry_count n page all_data =
        (ExitLoop all_data, n', evs).
Proof.
  induction fuel as [|fuel IH]; intros retry_count n Hfuel H429.
  - rewrite retry_loop_exhausted by lia. eauto.
  - destruct (decide (retry_count < max_retries)%nat) as [Hlt|Hge].
    + pose proof (H429 0%nat) as H0. rewrite Nat.add_0_r in H0.
      rewrite retry_loop_429 by done.
      destruct (IH (S retry_count) (S n)) as (n' & evs & ->); [lia| |by eauto].
      intros k. replace (S n + k)%nat with (n + S k)%nat by lia. apply H429.
    + rewrite retry_loop_exhausted by done. eauto.
Qed.

(** Against an upstream that answers every request with 429 the fetch
    never returns: whatever the bound on the number of pages, it is
    reached. *)
Lemma page_loop_always_429 max_retries :
  (∀ n page, transport n page = Status429) →
  ∀ fuel page n (all_data : list R),
    (page_loop transport fuel max_retries page n all_data).1 = OutOfFuel.
Proof.
  intros H429. induction fuel as [|fuel IH]; intros page n all_data; [done|].
  cbn [page_loop].
  destruct (retry_loop_429_falls_through max_retries page all_data
              max_retries 0%nat n) as (n' & evs & ->); [lia|done|].
  specialize (IH (page + 1) n' all_data).
  by destruct (page_loop _ _ _ _ _ _).
Qed.

End exhaustion.

(** C2, at the failing input. Page 1 is answered with 429 on each of the
    [MAX_RETRIES = 3] attempts. The fetch does not return the (empty)
    list accumulated so far: it sleeps, requests page 2, and returns the
    records of page 2 alone. *)
Lemma rate_limit_exhaustion_requests_next_page :
  fetch_all_data page_1_rate_limited 2 =
    (Returned [20; 21],
     [Request 1; Sleep 6; Request 1; Sleep 7; Request 1; Sleep 9;
      Sleep 3; Request 2]).
Proof. reflexivity. Qed.

(** The sibling branch, for the other errors, does return at once when
    the attempts at page 1 are used up. *)
Lemma error_exhaustion_returns :
  fetch_all_data page_1_unreachable 2 =
    (Returned [], [Request 1; Sleep 2; Request 1; Sleep 4; Request 1]).
Proof. reflexivity. Qed.

(** ** The price source *)

(** [fetch_tao_price_data] never raises. *)
Lemma fetch_tao_price_data_Ok f :
  ∃ current_price, fetch_tao_price_data f = Ok current_price.
Proof.
  unfold fetch_tao_price_data.
  destruct (history_1d f) as [hist|]; simpl; [|by eauto].
  destruct (last hist) as [[? ?]|]; simpl; eauto.
Qed.

Lemma fetch_tao_price_data_fallback f :
  history_1d f = Exn ∨ history_1d f = Ok [] →
  fetch_tao_price_data f = Ok FALLBACK_PRICE.
Proof. unfold fetch_tao_price_data. by intros [-> | ->]. Qed.

Lemma fetch_tao_price_data_last f hist d current_price :
  history_1d f = Ok hist → last hist = Some (d, current_price) →
  fetch_tao_price_data f = Ok current_price.
Proof. unfold fetch_tao_price_data. intros -> Hlast. simpl. by rewrite Hlast. Qed.

Lemma current_price_fallback_eq f current_price :
  fetch_tao_price_data f = Ok current_price →
  current_price_fallback f =
    Ok (if truthy current_price then {[ today f := current_price ]} else ∅).
Proof.
  unfold current_price_fallback. intros ->. simpl.
  by destruct (truthy current_price).
Qed.

(** [fetch_historical_tao_prices] never raises. *)
Lemma fetch_historical_tao_prices_Ok f from_date to_date :
  ∃ prices, fetch_historical_tao_prices f from_date to_date = Ok prices.
Proof.
  destruct (fetch_tao_price_data_Ok f) as [current_price Hcp].
  unfold fetch_historical_tao_prices.
  rewrite (current_price_fallback_eq f current_price Hcp).
  unfold mbind, result_bind, try_except.
  destruct (strptime_ok f _); [|by eauto].
  destruct (strptime_ok f _); [|by eauto].
  destruct (history_range f _ _) as [[|row hist]|]; eauto.
Qed.

(** The mapping built from a history holds, for each date, the close of
    the last row with that date. *)
Lemma daily_prices_of_lookup hist d :
  daily_prices_of hist !! d = snd <$> last (filter (λ row, row.1 = d) hist).
Proof.
  unfold daily_prices_of.
  assert (∀ m : gmap string pyfloat,
            foldl (λ daily_prices row, <[row.1 := row.2]> daily_prices) m hist !! d
            = match last (filter (λ row, row.1 = d) hist) with
              | Some row => Some row.2
              | None => m !! d
              end) as Hgen.
  { induction hist as [|[d' p] hist IH]; intros m; [done|].
    simpl. rewrite IH. rewrite filter_cons. simpl.
    destruct (decide (d' = d)) as [->|Hne].
    - rewrite last_cons. destruct (last (filter _ hist)); [done|].
      by rewrite lookup_insert_eq.
    - destruct (last (filter _ hist)); [done|]. by rewrite lookup_insert_ne. }
  rewrite Hgen, lookup_empty. by destruct (last _).
Qed.

(** C6, as stated, fails where the latest close is 0: the guard
    [if current_price:] rejects a zero price, and the empty mapping is
    returned instead of the single entry [{today: 0.0}]. *)
Lemma zero_price_counterexample :
  history_range zero_price_feed "2023-03-20" "2024-01-02" = Ok []
  ∧ fetch_tao_price_data zero_price_feed = Ok (Finite 0)
  ∧ fetch_historical_tao_prices zero_price_feed None None = Ok ∅
  ∧ fetch_historical_tao_prices zero_price_feed None None
      ≠ Ok {[ today zero_price_feed := Finite 0 ]}.
Proof.
  split; [reflexivity|]. split; [reflexivity|]. split; [reflexivity|].
  change (fetch_historical_tao_prices zero_price_feed None None)
    with (Ok (∅ : gmap string pyfloat)).
  intros Heq.
  apply (f_equal (λ r : result (gmap string pyfloat),
                    match r with
                    | Ok m => m !! today zero_price_feed
                    | Exn => None
                    end)) in Heq.
  by rewrite lookup_empty, lookup_singleton_eq in Heq.
Qed.

(** C6, amended. The historical-price query never raises. With
    [current_price] the value of [fetch_tao_price_data] (which never
    raises and is the fallback constant [500.0] when the one-day history
    is empty or the feed raises): a non-empty series yields its
    date-to-price mapping; an empty series, and likewise any failure
    inside the query (a date that does not parse, a feed that raises),
    yields the single-entry mapping [{today: current_price}] when
    [current_price] is non-zero and the empty mapping when it is zero. *)
Theorem fetch_historical_tao_prices_fallbacks f from_date to_date :
  ∃ current_price,
    fetch_tao_price_data f = Ok current_price
    ∧ (history_1d f = Exn ∨ history_1d f = Ok [] →
       current_price = FALLBACK_PRICE)
    ∧ (∃ prices, fetch_historical_tao_prices f from_date to_date = Ok prices)
    ∧ let single : gmap string pyfloat :=
        if truthy current_price then {[ today f := current_price ]} else ∅ in
      let from := default "2023-03-20"%string from_date in
      let to := default (today f) to_date in
      (∀ hist,
         strptime_ok f from = true → strptime_ok f to = true →
         history_range f from to = Ok hist → hist ≠ [] →
         fetch_historical_tao_prices f from_date to_date =
           Ok (daily_prices_of hist))
      ∧ (strptime_ok f from = true → strptime_ok f to = true →
         history_range f from to = Ok [] →
         fetch_historical_tao_prices f from_date to_date = Ok single)
      ∧ (strptime_ok f from = false ∨ strptime_ok f to = false
         ∨ history_range f from to = Exn →
         fetch_historical_tao_prices f from_date to_date = Ok single).
Proof.
  destruct (fetch_tao_price_data_Ok f) as [current_price Hcp].
  exists current_price. split_and!; [done| | |].
  - intros Hfb%fetch_tao_price_data_fallback. congruence.
  - unfold fetch_historical_tao_prices.
    rewrite (current_price_fallback_eq f current_price Hcp).
    unfold mbind, result_bind, try_except.
    destruct (strptime_ok f _); [|by eauto].
    destruct (strptime_ok f _); [|by eauto].
    destruct (history_range f _ _) as [[|row hist]|]; eauto.
  - simpl. unfold fetch_historical_tao_prices.
    rewrite (current_price_fallback_eq f current_price Hcp).
    unfold mbind, result_bind, try_except.
    split_and!.
    + intros hist -> -> -> Hne. destruct hist; [congruence|reflexivity].
    + by intros -> -> ->.
    + intros [-> | [Hto | ->]]; [done| |].
      * rewrite Hto. destruct (strptime_ok f (default _ from_date)); reflexivity.
      * do 2 (destruct (strptime_ok f _); [|reflexivity]). reflexivity.
Qed.

Lemma fetch_historical_tao_prices_fallbacks_witness :
  fetch_historical_tao_prices failing_range_feed None None =
    Ok {[ "2024-01-02"%string := Finite 431.5 ]}.
Proof.
  destruct (fetch_historical_tao_prices_fallbacks failing_range_feed None None)
    as (current_price & Hcp & _ & _ & _ & _ & Hfail).
  injection Hcp as <-.
  apply Hfail. right. right. reflexivity.
Defined.

(** ** The price cache *)

Lemma latest_fold_spec (rest : list price_file) : ∀ best,
  let r := foldl (λ best file, if ctime file >? ctime best then file else best)
                 best rest in
  r ∈ best :: rest ∧ ctime best ≤ ctime r ∧ ∀ g, g ∈ rest → ctime g ≤ ctime r.
Proof.
  induction rest as [|file rest IH]; intros best; simpl.
  - split_and!; [left|lia|]. by intros g ?%elem_of_nil.
  - destruct (Z.gtb_spec (ctime file) (ctime best)) as [Hgt|Hle].
    + destruct (IH file) as (Hin & Hbest & Hrest). split_and!; [by right|lia|].
      intros g [->|Hg]%elem_of_cons; [done|by apply Hrest].
    + destruct (IH best) as (Hin & Hbest & Hrest). split_and!.
      * apply elem_of_cons in Hin as [->|Hin]; [left|by do 2 right].
      * done.
      * intros g [->|Hg]%elem_of_cons; [lia|by apply Hrest].
Qed.

(** The snapshot chosen is one of the files, and none is newer. *)
Lemma latest_spec price_files latest_file :
  latest price_files = Some latest_file →
  latest_file ∈ price_files ∧ ∀ g, g ∈ price_files → ctime g ≤ ctime latest_file.
Proof.
  destruct price_files as [|first rest]; [done|]. intros [= <-].
  destruct (latest_fold_spec rest first) as (Hin & Hbest & Hrest).
  split; [done|]. intros g [->|Hg]%elem_of_cons; [done|by apply Hrest].
Qed.

Lemma latest_is_Some price_files :
  price_files ≠ [] → is_Some (latest price_files).
Proof. destruct price_files; [done|]. by eexists. Qed.

(** [delta.days <= 1] holds up to, and not including, two full days. *)
Lemma timedelta_days_le_1 delta : timedelta_days delta ≤ 1 ↔ delta < 2 * DAY.
Proof.
  unfold timedelta_days, DAY. split; intros H.
  - apply Z.nle_gt. intros Hge.
    assert (2 ≤ delta / (86400 * 1000000)); [|lia].
    apply Z.div_le_lower_bound; lia.
  - assert (delta / (86400 * 1000000) < 2); [|lia].
    apply Z.div_lt_upper_bound; lia.
Qed.

(** Merging: a date of the new rows gets the new price, any other date
    keeps the price of the snapshot. *)
Lemma merge_lookup (new_prices existing_prices : gmap string pyfloat) d :
  (new_prices ∪ existing_prices) !! d =
    match new_prices !! d with
    | Some p => Some p
    | None => existing_prices !! d
    end.
Proof.
  rewrite lookup_union.
  by destruct (new_prices !! d), (existing_prices !! d).
Qed.

Lemma write_file_elem file files : file ∈ write_file file files.
Proof.
  induction files as [|old files IH]; simpl; [left|].
  destruct (String.eqb _ _); [left|by right].
Qed.

Lemma write_file_others file files g :
  g ∈ files → file_name g ≠ file_name file → g ∈ write_file file files.
Proof.
  induction files as [|old files IH]; simpl; [by intros ?%elem_of_nil|].
  intros [->|Hg]%elem_of_cons Hne.
  - destruct (String.eqb_spec (file_name old) (file_name file)); [done|left].
  - destruct (String.eqb _ _); right; [done|by apply IH].
Qed.

(** C3, at the failing input. The only snapshot is a day and a half old
    and the price source has fresh rows. The branch that refreshes
    announces itself with "Price data is more than 1 day old", but its
    test is [(datetime.now() - file_date).days > 1], and [delta.days]
    counts whole days: at this age it is 1, the test is false, the
    snapshot is returned as it is, the price source is not queried and
    nothing is written. The merge that a refresh would return is not
    what the call returns. *)
Lemma stale_snapshot_counterexample :
  let now := DAY + DAY / 2 in
  let run :=
    get_or_fetch_price_data sample_file_name two_row_feed [old_snapshot] now
      None None in
  DAY < now - ctime old_snapshot
  ∧ fetched run = false
  ∧ files_after run = [old_snapshot]
  ∧ returned run = Ok {[ "2024-01-01"%string := Finite 100 ]}
  ∧ returned run ≠
      Ok ({[ "2024-01-01"%string := Finite 105 ]}
          ∪ {[ "2024-01-02"%string := Finite 107 ]}).
Proof.
  split_and!; [done..|].
  intros Heq.
  apply (f_equal (λ r : result (gmap string pyfloat),
                    match r with
                    | Ok m => m !! "2024-01-02"%string
                    | Exn => None
                    end)) in Heq.
  vm_compute in Heq. discriminate.
Qed.

(** The behaviour of [get_or_fetch] with a snapshot, as the code is
    written. It takes the newest snapshot (by creation time) and looks at
    the whole days of its age, [delta.days]. If that is at most 1, that
    is if the age is less than two days, the snapshot is loaded and returned
    unchanged: the price source is not queried and no file is written.
    If it is more than 1, that is if the age is two days or more, a
    fresh historical range is fetched and merged with the loaded
    snapshot, a date of the fresh rows getting the fresh price and every
    other date keeping the price of the snapshot; the merge is returned
    and, unless it is empty, written as a snapshot named after the
    current time. *)
Theorem get_or_fetch_price_data_snapshot price_file_name f price_files now
    start_date end_date latest_file :
  latest price_files = Some latest_file →
  let run :=
    get_or_fetch_price_data price_file_name f price_files now
      start_date end_date in
  let age := now - ctime latest_file in
  (latest_file ∈ price_files
   ∧ ∀ g, g ∈ price_files → ctime g ≤ ctime latest_file)
  ∧ (timedelta_days age ≤ 1 ↔ age < 2 * DAY)
  ∧ (age < 2 * DAY →
     run = CacheRun (Ok (load_price_data latest_file)) price_files false)
  ∧ (2 * DAY ≤ age →
     ∃ new_prices,
       fetch_historical_tao_prices f start_date end_date = Ok new_prices
       ∧ let merged := new_prices ∪ load_price_data latest_file in
         let snapshot := PriceFile (price_file_name now) now (Some merged) in
         returned run = Ok merged
         ∧ fetched run = true
         ∧ (∀ d, merged !! d =
                 match new_prices !! d with
                 | Some p => Some p
                 | None => load_price_data latest_file !! d
                 end)
         ∧ (merged ≠ ∅ →
            files_after run = write_file snapshot price_files
            ∧ snapshot ∈ files_after run)
         ∧ (merged = ∅ → files_after run = price_files)).
Proof.
  intros Hlatest run age. split; [|split; [|split]].
  - by apply latest_spec.
  - apply timedelta_days_le_1.
  - intros Hfresh. apply timedelta_days_le_1 in Hfresh.
    unfold run, get_or_fetch_price_data. rewrite Hlatest.
    destruct (Z.gtb_spec (timedelta_days (now - ctime latest_file)) 1); [|done].
    unfold age in Hfresh. lia.
  - intros Hstale.
    destruct (fetch_historical_tao_prices_Ok f start_date end_date)
      as [new_prices Hnew].
    exists new_prices. split; [done|].
    assert (¬ timedelta_days age ≤ 1) as Hdays
      by (rewrite timedelta_days_le_1; lia).
    unfold run, get_or_fetch_price_data. rewrite Hlatest, Hnew.
    destruct (Z.gtb_spec (timedelta_days (now - ctime latest_file)) 1);
      [|unfold age in Hdays; lia].
    unfold save_price_data. simpl.
    destruct (decide (new_prices ∪ load_price_data latest_file = ∅)) as [Hempty|Hne];
      simpl; split_and!; try done.
    + apply merge_lookup.
    + apply merge_lookup.
    + intros _. split; [done|]. apply write_file_elem.
Qed.

Lemma get_or_fetch_price_data_snapshot_witness :
  let run :=
    get_or_fetch_price_data sample_file_name two_row_feed [old_snapshot]
      (3 * DAY) None None in
  let merged := two_rows ∪ load_price_data old_snapshot in
  returned run = Ok merged
  ∧ fetched run = true
  ∧ merged !! "2024-01-01"%string = Some (Finite 105)
  ∧ merged !! "2024-01-02"%string = Some (Finite 107)
  ∧ files_after run =
      write_file (PriceFile (sample_file_name (3 * DAY)) (3 * DAY) (Some merged))
        [old_snapshot].
Proof.
  destruct (get_or_fetch_price_data_snapshot sample_file_name two_row_feed
              [old_snapshot] (3 * DAY) None None old_snapshot eq_refl)
    as (_ & _ & _ & Hstale).
  destruct Hstale as (new_prices & Hnew & Hret & Hfetched & _ & Hsave & _).
  { vm_compute. discriminate. }
  assert (fetch_historical_tao_prices two_row_feed None None = Ok two_rows)
    as Hfetch by reflexivity.
  rewrite Hfetch in Hnew. injection Hnew as <-.
  assert ((two_rows ∪ load_price_data old_snapshot) !! "2024-01-01"%string
          = Some (Finite 105)) as H1 by (vm_compute; reflexivity).
  split; [exact Hret|]. split; [exact Hfetched|]. split; [exact H1|].
  split; [vm_compute; reflexivity|].
  apply Hsave. intros Hempty. rewrite Hempty in H1. discriminate.
Defined.

(** ** Normalisation *)

Lemma is_Ok_from_Ok {A} (d : A) (r : result A) :
  is_Ok r = true → r = Ok (from_Ok d r).
Proof. by destruct r. Qed.

Lemma bind_Ok {A B} (r : result A) (k : A → result B) b :
  r ≫= k = Ok b ↔ ∃ a, r = Ok a ∧ k a = Ok b.
Proof.
  unfold mbind, result_bind. destruct r as [a|].
  - split; [by eauto|]. intros (a' & Ha & Hk). by injection Ha as ->.
  - split; [done|]. by intros (a' & Ha & Hk).
Qed.

(** Inverts a hypothesis saying that a sequence of binds succeeded. *)
Ltac invert_binds H :=
  repeat
    (let a := fresh "a" in
     let Ha := fresh "H" a in
     apply bind_Ok in H as (a & Ha & H)).

Section normalisation_facts.
  Context (to_datetime : string → result Z) (date_str_of : string → result string).
  Implicit Types (raw_data : list raw_record) (entry : raw_record).
  Implicit Types (data_point : gmap string value) (rows df : list (gmap string value)).
  Implicit Types (price_data : gmap string pyfloat).


(** The loop yields one row per record, in order. *)
Lemma process_entries_Forall2 include_usd prices raw_data rows :
  process_entries to_datetime date_str_of include_usd prices raw_data = Ok rows ↔
  Forall2 (λ entry data_point,
             process_entry to_datetime date_str_of include_usd prices entry = Ok data_point)
          raw_data rows.
Proof.
  revert rows. induction raw_data as [|entry raw_data IH]; intros rows; simpl.
  - split; [intros [= <-]; constructor|by intros ->%Forall2_nil_inv_l].
  - rewrite bind_Ok. split.
    + intros (data_point & Hdp & Hrest).
      apply bind_Ok in Hrest as (processed & Hprocessed & [= <-]).
      constructor; [done|by apply IH].
    + intros (data_point & processed & Hdp & Hprocessed & ->)%Forall2_cons_inv_l.
      exists data_point. split; [done|].
      apply IH in Hprocessed. by rewrite Hprocessed.
Qed.

(** A successful call sorts the rows of the loop, and there is at least
    one. *)
Lemma process_data_Ok cache raw_data include_usd prices df :
  process_data to_datetime date_str_of cache raw_data include_usd prices = Ok df →
  ∃ prices' rows,
    process_entries to_datetime date_str_of include_usd prices' raw_data = Ok rows
    ∧ rows ≠ [] ∧ df = sort_values rows
    ∧ (include_usd = false → prices' = None)
    ∧ (∀ price_data, prices = Some price_data → include_usd = true →
                     prices' = Some price_data).
Proof.
  unfold process_data. intros H.
  apply bind_Ok in H as (prices' & Hprices & H).
  apply bind_Ok in H as (rows & Hrows & H).
  exists prices', rows. split; [done|].
  destruct rows as [|row rows]; [done|]. injection H as <-.
  split_and!; [done|done| |].
  - intros ->. destruct prices; by injection Hprices as <-.
  - intros price_data -> ->. by injection Hprices as <-.
Qed.

Lemma sort_values_Permutation rows : sort_values rows ≡ₚ rows.
Proof. apply merge_sort_Permutation. Qed.

Global Instance timestamp_le_total : Total timestamp_le.
Proof. intros a b. unfold timestamp_le. lia. Qed.

Global Instance timestamp_le_trans : Transitive timestamp_le.
Proof. intros a b c. unfold timestamp_le. lia. Qed.

Lemma sort_values_sorted rows : StronglySorted timestamp_le (sort_values rows).
Proof. apply StronglySorted_merge_sort; apply _. Qed.

(** A sorted list without two equal timestamps is strictly ascending. *)
Lemma StronglySorted_strict df :
  StronglySorted timestamp_le df →
  NoDup (timestamp_of <$> df) →
  StronglySorted (λ a b, timestamp_of a < timestamp_of b) df.
Proof.
  induction 1 as [|a df Hdf IH Ha]; [constructor|].
  rewrite fmap_cons. intros [Hnotin Hnodup]%NoDup_cons.
  constructor; [by apply IH|].
  apply Forall_forall. intros b Hb.
  eapply Forall_forall in Ha; [|done]. unfold timestamp_le in Ha.
  assert (timestamp_of a ≠ timestamp_of b); [|lia].
  intros Heq. apply Hnotin. rewrite Heq. by apply list_elem_of_fmap_2.
Qed.

(** *** The fields of a row *)

Lemma base_data_point_lookup ts entry issued_tao staked_tao circulating_tao sp cp :
  let base :=
    base_data_point ts entry issued_tao staked_tao circulating_tao sp cp in
  base !! "timestamp"%string = Some (VTimestamp ts)
  ∧ base !! "issued_tao"%string = Some (VFloat issued_tao)
  ∧ base !! "staked_tao"%string = Some (VFloat staked_tao)
  ∧ base !! "circulating_tao"%string = Some (VFloat circulating_tao)
  ∧ base !! "staked_percentage"%string = Some sp
  ∧ base !! "circulating_percentage"%string = Some cp
  ∧ ∀ k, k ∈ usd_fields → base !! k = None.
Proof.
  split_and!; try reflexivity.
  intros k Hk. unfold usd_fields in Hk.
  repeat (apply elem_of_cons in Hk as [->|Hk]; [reflexivity|]).
  by apply elem_of_nil in Hk.
Qed.

Lemma usd_update_lookup issued_tao staked_tao circulating_tao price data_point :
  let row := usd_update issued_tao staked_tao circulating_tao price data_point in
  row !! "tao_price_usd"%string = Some (VFloat price)
  ∧ row !! "total_market_cap_usd"%string = Some (VFloat (fmul issued_tao price))
  ∧ row !! "staked_market_cap_usd"%string = Some (VFloat (fmul staked_tao price))
  ∧ row !! "circulating_market_cap_usd"%string
      = Some (VFloat (fmul circulating_tao price))
  ∧ ∀ k, k ∉ usd_fields → row !! k = data_point !! k.
Proof.
  unfold usd_update. split_and!.
  - do 3 (rewrite lookup_insert_ne by done). by rewrite lookup_insert_eq.
  - by rewrite lookup_insert_eq.
  - rewrite lookup_insert_ne by done. by rewrite lookup_insert_eq.
  - do 2 (rewrite lookup_insert_ne by done). by rewrite lookup_insert_eq.
  - intros k Hk. unfold usd_fields in Hk.
    rewrite !not_elem_of_cons in Hk. destruct Hk as (? & ? & ? & ? & _).
    by do 4 (rewrite lookup_insert_ne by done).
Qed.

Lemma timestamp_not_usd_field : "timestamp"%string ∉ usd_fields.
Proof.
  unfold usd_fields. intros Hin.
  repeat (apply elem_of_cons in Hin as [?|Hin]; [done|]).
  by apply elem_of_nil in Hin.
Qed.

(** What a successful iteration of the loop computed. *)
Lemma process_entry_inv include_usd prices entry data_point :
  process_entry to_datetime date_str_of include_usd prices entry = Ok data_point →
  ∃ ts issued_tao staked_tao sp cp,
    to_datetime (timestamp entry) = Ok ts
    ∧ (if 0 <? issued entry
       then ratio ← int_truediv (staked entry) (issued entry);
            Ok (VFloat (fmul ratio (Finite 100)))
       else Ok (VInt 0)) = Ok sp
    ∧ (x ← float_of_int (issued entry); fdiv x (Finite 1000000000)) = Ok issued_tao
    ∧ (x ← float_of_int (staked entry); fdiv x (Finite 1000000000)) = Ok staked_tao
    ∧ (if fpositive issued_tao
       then ratio ← fdiv (fsub issued_tao staked_tao) issued_tao;
            Ok (VFloat (fmul ratio (Finite 100)))
       else Ok (VInt 0)) = Ok cp
    ∧ let base :=
        base_data_point ts entry issued_tao staked_tao
          (fsub issued_tao staked_tao) sp cp in
      match include_usd, prices with
      | true, Some price_data =>
          ∃ date_str,
            date_str_of (timestamp entry) = Ok date_str
            ∧ data_point =
                match get_price_for_date price_data date_str with
                | Some price =>
                    usd_update issued_tao staked_tao
                      (fsub issued_tao staked_tao) price base
                | None => base
                end
      | _, _ => data_point = base
      end.
Proof.
  unfold process_entry. intros H.
  apply bind_Ok in H as (sp & Hsp & H).
  apply bind_Ok in H as (issued_tao & Hissued & H).
  apply bind_Ok in H as (staked_tao & Hstaked & H).
  apply bind_Ok in H as (ts & Hts & H).
  apply bind_Ok in H as (cp & Hcp & H).
  exists ts, issued_tao, staked_tao, sp, cp. split_and!; [done..|].
  simpl. destruct include_usd; [|by injection H as <-].
  destruct prices as [price_data|]; [|by injection H as <-].
  apply bind_Ok in H as (date_str & Hdate & H).
  exists date_str. split; [done|].
  rewrite <-resolve_price_get_price_for_date.
  destruct (resolve_price price_data date_str); by injection H as <-.
Qed.

Lemma process_entry_timestamp include_usd prices entry data_point :
  process_entry to_datetime date_str_of include_usd prices entry = Ok data_point →
  to_datetime (timestamp entry) = Ok (timestamp_of data_point).
Proof.
  intros (ts & issued_tao & staked_tao & sp & cp & Hts & _ & _ & _ & _ & Hdp)
    %process_entry_inv.
  rewrite Hts. f_equal. simpl in Hdp.
  assert (data_point !! "timestamp"%string = Some (VTimestamp ts)) as Hlookup.
  { destruct include_usd; [|by subst].
    destruct prices as [price_data|]; [|by subst].
    destruct Hdp as (date_str & _ & ->).
    destruct (get_price_for_date price_data date_str); [|done].
    destruct (usd_update_lookup issued_tao staked_tao (fsub issued_tao staked_tao)
                p (base_data_point ts entry issued_tao staked_tao
                     (fsub issued_tao staked_tao) sp cp))
      as (_ & _ & _ & _ & Hother).
    rewrite Hother; [done|]. apply timestamp_not_usd_field. }
  unfold timestamp_of. by rewrite Hlookup.
Qed.

Lemma process_entry_v1_timestamp entry data_point :
  process_entry_v1 to_datetime entry = Ok data_point →
  to_datetime (timestamp entry) = Ok (timestamp_of data_point).
Proof.
  unfold process_entry_v1. intros H.
  apply bind_Ok in H as (sp & Hsp & H).
  apply bind_Ok in H as (issued_tao & Hissued & H).
  apply bind_Ok in H as (staked_tao & Hstaked & H).
  apply bind_Ok in H as (ts & Hts & H).
  injection H as <-. by rewrite Hts.
Qed.

Lemma process_entries_v1_Forall2 raw_data rows :
  process_entries_v1 to_datetime raw_data = Ok rows ↔
  Forall2 (λ entry data_point, process_entry_v1 to_datetime entry = Ok data_point)
          raw_data rows.
Proof.
  revert rows. induction raw_data as [|entry raw_data IH]; intros rows; simpl.
  - split; [intros [= <-]; constructor|by intros ->%Forall2_nil_inv_l].
  - rewrite bind_Ok. split.
    + intros (data_point & Hdp & Hrest).
      apply bind_Ok in Hrest as (processed & Hprocessed & [= <-]).
      constructor; [done|by apply IH].
    + intros (data_point & processed & Hdp & Hprocessed & ->)%Forall2_cons_inv_l.
      exists data_point. split; [done|].
      apply IH in Hprocessed. by rewrite Hprocessed.
Qed.

(** The timestamp column of the sorted frame, for rows whose timestamps
    are the instants of the records. *)
Lemma sort_values_timestamps raw_data rows :
  Forall2 (λ entry data_point,
             to_datetime (timestamp entry) = Ok (timestamp_of data_point))
          raw_data rows →
  ∃ instants,
    Forall2 (λ entry t, to_datetime (timestamp entry) = Ok t) raw_data instants
    ∧ timestamp_of <$> sort_values rows ≡ₚ instants
    ∧ StronglySorted Z.le (timestamp_of <$> sort_values rows)
    ∧ (NoDup instants → StronglySorted Z.lt (timestamp_of <$> sort_values rows)).
Proof.
  intros Hrows. exists (timestamp_of <$> rows). split_and!.
  - by apply Forall2_fmap_r.
  - by rewrite sort_values_Permutation.
  - eapply (StronglySorted_fmap timestamp_of timestamp_le);
      [done|apply sort_values_sorted].
  - intros Hnodup.
    eapply (StronglySorted_fmap timestamp_of
              (λ a b, timestamp_of a < timestamp_of b)); [done|].
    apply StronglySorted_strict; [apply sort_values_sorted|].
    by rewrite sort_values_Permutation.
Qed.

End normalisation_facts.

(** C9, as stated, fails when two records carry the same timestamp:
    nothing removes duplicates, both rows are kept, and the sorted frame
    is ascending but not strictly. *)
Lemma equal_timestamps_counterexample :
  process_data sample_to_datetime sample_date_str_of Exn
    [record_jan_1; record_jan_1_again] false None = Ok duplicate_frame
  ∧ timestamp_of <$> duplicate_frame = [1704067200; 1704067200]
  ∧ ¬ StronglySorted Z.lt (timestamp_of <$> duplicate_frame).
Proof.
  split; [apply is_Ok_from_Ok; vm_compute; reflexivity|].
  assert (timestamp_of <$> duplicate_frame = [1704067200; 1704067200]) as ->
    by (vm_compute; reflexivity).
  split; [done|].
  intros Hsorted. apply StronglySorted_inv in Hsorted as [_ Hhd].
  apply Forall_cons in Hhd as [Hlt _]. vm_compute in Hlt. discriminate.
Qed.

(** C9, amended. For every list of records on which normalisation
    succeeds, in whatever order the records arrive, the timestamp column
    of the returned frame is a rearrangement of the instants of the
    records in ascending order: each timestamp is at most the next one.
    The order is strictly ascending when no two records have the same
    instant. This holds for [process_data] and for its older variant. *)
Theorem process_data_sorted to_datetime date_str_of :
  (∀ cache raw_data include_usd prices df,
     process_data to_datetime date_str_of cache raw_data include_usd prices
       = Ok df →
     ∃ instants,
       Forall2 (λ entry t, to_datetime (timestamp entry) = Ok t)
               raw_data instants
       ∧ timestamp_of <$> df ≡ₚ instants
       ∧ StronglySorted Z.le (timestamp_of <$> df)
       ∧ (NoDup instants → StronglySorted Z.lt (timestamp_of <$> df))) ∧
  (∀ raw_data df,
     process_data_v1 to_datetime raw_data = Ok df →
     ∃ instants,
       Forall2 (λ entry t, to_datetime (timestamp entry) = Ok t)
               raw_data instants
       ∧ timestamp_of <$> df ≡ₚ instants
       ∧ StronglySorted Z.le (timestamp_of <$> df)
       ∧ (NoDup instants → StronglySorted Z.lt (timestamp_of <$> df))).
Proof.
  split.
  - intros cache raw_data include_usd prices df
      (prices' & rows & Hrows & _ & -> & _)%process_data_Ok.
    apply sort_values_timestamps.
    apply process_entries_Forall2 in Hrows.
    eapply Forall2_impl; [done|]. simpl.
    intros entry data_point. apply process_entry_timestamp.
  - intros raw_data df H. unfold process_data_v1 in H.
    apply bind_Ok in H as (rows & Hrows & H).
    destruct rows as [|row rows]; [done|]. injection H as <-.
    apply sort_values_timestamps.
    apply process_entries_v1_Forall2 in Hrows.
    eapply Forall2_impl; [done|]. simpl.
    intros entry data_point. apply process_entry_v1_timestamp.
Qed.

Lemma process_data_sorted_witness :
  ∃ instants,
    Forall2 (λ entry t, sample_to_datetime (timestamp entry) = Ok t)
            [record_jan_2; record_jan_1] instants
    ∧ timestamp_of <$> sample_frame ≡ₚ instants
    ∧ StronglySorted Z.le (timestamp_of <$> sample_frame)
    ∧ (NoDup instants → StronglySorted Z.lt (timestamp_of <$> sample_frame)).
Proof.
  apply (proj1 (process_data_sorted sample_to_datetime sample_date_str_of)
           Exn [record_jan_2; record_jan_1] true (Some sample_prices)).
  apply is_Ok_from_Ok. vm_compute. reflexivity.
Defined.

Example sample_frame_timestamps :
  timestamp_of <$> sample_frame = [1704067200; 1704153600].
Proof. vm_compute. reflexivity. Qed.


(** ** Floating-point rounding *)

Section float_facts.
  Local Open Scope Q_scope.

Lemma round_half_even_bounds x :
  (Qfloor x <= round_half_even x <= Qfloor x + 1)%Z.
Proof.
  unfold round_half_even.
  destruct (x - inject_Z (Qfloor x) ?= 1 # 2); [destruct (Z.even _)|..]; lia.
Qed.

Lemma round_half_even_Z z : round_half_even (inject_Z z) = z.
Proof.
  unfold round_half_even. rewrite Qfloor_Z.
  generalize (inject_Z z). intros q.
  destruct (Qcompare_spec (q - q) (1 # 2)) as [H|H|H];
    [exfalso; lra|reflexivity|exfalso; lra].
Qed.

Lemma round_half_even_mono x y :
  x <= y -> (round_half_even x <= round_half_even y)%Z.
Proof.
  intros Hxy. pose proof (Qfloor_resp_le x y Hxy) as Hf.
  pose proof (round_half_even_bounds x) as Hx.
  pose proof (round_half_even_bounds y) as Hy.
  destruct (Z.eq_dec (Qfloor x) (Qfloor y)) as [Heq|Hne]; [|lia].
  clear Hx Hy. unfold round_half_even. rewrite <- Heq.
  generalize dependent (inject_Z (Qfloor x)). intros q.
  destruct (Qcompare_spec (x - q) (1 # 2)) as [Hcx|Hcx|Hcx];
    destruct (Qcompare_spec (y - q) (1 # 2)) as [Hcy|Hcy|Hcy];
    try (destruct (Z.even (Qfloor x))); try lia; exfalso; lra.
Qed.

Lemma round_half_even_error x :
  Qabs (inject_Z (round_half_even x) - x) <= 1 # 2.
Proof.
  pose proof (Qfloor_le x) as Hlo. pose proof (Qlt_floor x) as Hhi.
  rewrite inject_Z_plus in Hhi. change (inject_Z 1) with 1 in Hhi.
  apply Qabs_Qle_condition. unfold round_half_even.
  destruct (Qcompare_spec (x - inject_Z (Qfloor x)) (1 # 2)) as [Hc|Hc|Hc];
    [destruct (Z.even (Qfloor x))|..];
    rewrite ?inject_Z_plus; change (inject_Z 1) with 1;
    generalize dependent (inject_Z (Qfloor x)); intros q ? ? ?; lra.
Qed.

Lemma round_half_even_ge z x : inject_Z z <= x -> (z <= round_half_even x)%Z.
Proof.
  intros H%round_half_even_mono. now rewrite round_half_even_Z in H.
Qed.

Lemma round_half_even_le z x : x <= inject_Z z -> (round_half_even x <= z)%Z.
Proof.
  intros H%round_half_even_mono. now rewrite round_half_even_Z in H.
Qed.

(** Powers of two *)

Lemma pow2_pos k : 0 < pow2 k.
Proof. apply Qpower_0_lt. reflexivity. Qed.

Lemma pow2_add a b : pow2 (a + b) == pow2 a * pow2 b.
Proof. apply Qpower_plus. discriminate. Qed.

Lemma pow2_succ k : pow2 (k + 1) == 2 * pow2 k.
Proof. rewrite pow2_add. change (pow2 1) with 2. ring. Qed.

Lemma pow2_le a b : (a <= b)%Z -> pow2 a <= pow2 b.
Proof. intros H. apply Qpower_le_compat_l; [exact H|discriminate]. Qed.

Lemma pow2_lt a b : (a < b)%Z -> pow2 a < pow2 b.
Proof. intros H. apply Qpower_lt_compat_l; [exact H|reflexivity]. Qed.

Lemma pow2_lt_inv a b : pow2 a < pow2 b -> (a < b)%Z.
Proof. intros H. apply (Qpower_lt_compat_l_inv 2); [exact H|reflexivity]. Qed.

Lemma pow2_inject k : (0 <= k)%Z -> pow2 k == inject_Z (2 ^ k).
Proof. intros H. unfold pow2. now rewrite Zpower_Qpower. Qed.

Lemma Q_num_den x : x * inject_Z (Zpos (Qden x)) == inject_Z (Qnum x).
Proof.
  destruct x as [n d]. simpl. rewrite (Qmake_Qdiv n d). field. discriminate.
Qed.

Lemma bracket_quotient (x N D A B r r' : Q) :
  0 < x -> x * D == N -> A <= N -> N < 2 * A -> B <= D -> D < 2 * B ->
  r * B == A -> 0 < r -> 0 < B -> r == 2 * r' ->
  x < 2 * r /\ r' <= x.
Proof. intros. split; nra. Qed.

(** The integer logarithm brackets its argument. *)
Lemma ilog2_spec x : 0 < x -> pow2 (ilog2 x) <= x < pow2 (ilog2 x + 1).
Proof.
  intros Hx.
  assert (0 < Qnum x)%Z as Hn by (destruct x; unfold Qlt in Hx; simpl in *; lia).
  pose proof (Z.log2_spec _ Hn) as [Ha1 Ha2].
  pose proof (Z.log2_spec (Zpos (Qden x)) eq_refl) as [Hb1 Hb2].
  pose proof (Z.log2_nonneg (Qnum x)) as Ha0.
  pose proof (Z.log2_nonneg (Zpos (Qden x))) as Hb0.
  set (a := Z.log2 (Qnum x)) in *. set (b := Z.log2 (Zpos (Qden x))) in *.
  rewrite Zle_Qle, <- pow2_inject in Ha1, Hb1 by lia.
  rewrite Zlt_Qlt, <- pow2_inject in Ha2, Hb2 by lia.
  unfold Z.succ in Ha2, Hb2. rewrite pow2_succ in Ha2, Hb2.
  pose proof (pow2_add (a - b) b) as Hr.
  replace (a - b + b)%Z with a in Hr by lia.
  pose proof (pow2_succ (a - b - 1)) as Hr1.
  replace (a - b - 1 + 1)%Z with (a - b)%Z in Hr1 by lia.
  destruct (bracket_quotient x _ _ _ _ _ _ Hx (Q_num_den x) Ha1 Ha2 Hb1 Hb2
              (Qeq_sym _ _ Hr)
              (pow2_pos _) (pow2_pos _) Hr1) as [Hup Hlo].
  unfold ilog2. fold a b.
  destruct (Qle_bool (pow2 (a - b)) x) eqn:Hle.
  - apply Qle_bool_iff in Hle. rewrite pow2_succ. split; assumption.
  - replace (a - b - 1 + 1)%Z with (a - b)%Z by lia. split; [assumption|].
    apply Qnot_le_lt. intros H. apply Qle_bool_iff in H. congruence.
Qed.

Lemma ilog2_mono x y : 0 < x -> x <= y -> (ilog2 x <= ilog2 y)%Z.
Proof.
  intros Hx Hxy.
  destruct (ilog2_spec x Hx) as [Hlo _].
  destruct (ilog2_spec y) as [_ Hhi]; [lra|].
  assert (pow2 (ilog2 x) < pow2 (ilog2 y + 1)) as H%pow2_lt_inv by lra. lia.
Qed.

Lemma ilog2_unique x k : pow2 k <= x < pow2 (k + 1) -> ilog2 x = k.
Proof.
  intros [Hlo Hhi]. pose proof (pow2_pos k) as Hk.
  destruct (ilog2_spec x) as [Hlo' Hhi']; [lra|].
  assert (pow2 k < pow2 (ilog2 x + 1)) as H1%pow2_lt_inv by lra.
  assert (pow2 (ilog2 x) < pow2 (k + 1)) as H2%pow2_lt_inv by lra.
  lia.
Qed.

Lemma ulp_exponent_mono x y :
  0 < x -> x <= y -> (ulp_exponent x <= ulp_exponent y)%Z.
Proof. intros Hx Hxy. pose proof (ilog2_mono x y Hx Hxy). unfold ulp_exponent. lia. Qed.

Lemma div_pow2 x e : x / pow2 e == x * pow2 (- e).
Proof. unfold Qdiv, pow2. now rewrite Qpower_opp. Qed.

Lemma pow2_opp_mul e : pow2 (- e) * pow2 e == 1.
Proof. rewrite <- pow2_add. now replace (- e + e)%Z with 0%Z by lia. Qed.

Lemma round_pos_nonneg x : 0 <= x -> 0 <= round_pos x.
Proof.
  intros Hx. unfold round_pos.
  pose proof (pow2_pos (ulp_exponent x)) as He.
  pose proof (pow2_pos (- ulp_exponent x)) as He'.
  apply Qmult_le_0_compat; [|lra].
  change 0 with (inject_Z 0). rewrite <- Zle_Qle.
  apply round_half_even_ge. rewrite div_pow2. simpl (inject_Z 0).
  apply Qmult_le_0_compat; lra.
Qed.

(** Rounding a positive number keeps the order. *)
Lemma round_pos_mono x y : 0 < x -> x <= y -> round_pos x <= round_pos y.
Proof.
  intros Hx Hxy. pose proof (ulp_exponent_mono x y Hx Hxy) as He.
  unfold round_pos.
  destruct (Z.eq_dec (ulp_exponent x) (ulp_exponent y)) as [Heq|Hne].
  - rewrite <- Heq. pose proof (pow2_pos (ulp_exponent x)) as Hp.
    pose proof (pow2_pos (- ulp_exponent x)) as Hp'.
    apply Qmult_le_compat_r; [|lra].
    rewrite <- Zle_Qle. apply round_half_even_mono.
    rewrite !div_pow2. apply Qmult_le_compat_r; lra.
  - assert (ulp_exponent y = ilog2 y - 52 /\ ilog2 x - 52 <= ulp_exponent x)%Z
      as [Hey Hex] by (unfold ulp_exponent in *; lia).
    set (ex := ulp_exponent x) in *. set (ey := ulp_exponent y) in *.
    destruct (ilog2_spec x Hx) as [_ Hxhi].
    destruct (ilog2_spec y) as [Hylo _]; [lra|].
    (* y is at least 2^(ey+52), x is below 2^(ex+53) *)
    assert (inject_Z (2 ^ 52) <= y / pow2 ey) as Hy52.
    { rewrite div_pow2, <- pow2_inject by lia.
      replace (ilog2 y) with (52 + ey)%Z in Hylo by lia.
      rewrite pow2_add in Hylo.
      pose proof (pow2_opp_mul ey) as H1. pose proof (pow2_pos (- ey)) as H2.
      pose proof (pow2_pos ey) as H3. pose proof (pow2_pos 52) as H4.
      generalize dependent (pow2 (- ey)). generalize dependent (pow2 ey).
      generalize dependent (pow2 52). intros. nra. }
    assert (x / pow2 ex <= inject_Z (2 ^ 53)) as Hx53.
    { rewrite div_pow2, <- pow2_inject by lia.
      assert (x < pow2 (53 + ex)) as Hx'.
      { eapply Qlt_le_trans; [exact Hxhi|]. apply pow2_le. lia. }
      rewrite pow2_add in Hx'.
      pose proof (pow2_opp_mul ex) as H1. pose proof (pow2_pos (- ex)) as H2.
      pose proof (pow2_pos ex) as H3. pose proof (pow2_pos 53) as H4.
      generalize dependent (pow2 (- ex)). generalize dependent (pow2 ex).
      generalize dependent (pow2 53). intros. nra. }
    apply round_half_even_ge in Hy52. apply round_half_even_le in Hx53.
    rewrite Zle_Qle in Hy52, Hx53.
    rewrite <- pow2_inject in Hy52, Hx53 by lia.
    assert (pow2 53 * pow2 ex <= pow2 52 * pow2 ey) as Hmid.
    { rewrite <- !pow2_add. apply pow2_le. lia. }
    pose proof (pow2_pos ex). pose proof (pow2_pos ey).
    generalize dependent (inject_Z (round_half_even (x / pow2 ex))).
    generalize dependent (inject_Z (round_half_even (y / pow2 ey))).
    generalize dependent (pow2 ex). generalize dependent (pow2 ey).
    generalize dependent (pow2 53). generalize dependent (pow2 52).
    intros. nra.
Qed.

(** [round64] by the sign of its argument. *)
Lemma round64_pos x : 0 < x -> round64 x == round_pos x.
Proof.
  intros Hx. unfold round64. rewrite Qred_correct.
  destruct (Qcompare_spec x 0) as [H|H|H]; [exfalso; lra..|reflexivity].
Qed.

Lemma round64_neg x : x < 0 -> round64 x == - round_pos (- x).
Proof.
  intros Hx. unfold round64. rewrite Qred_correct.
  destruct (Qcompare_spec x 0) as [H|H|H]; [exfalso; lra|reflexivity|exfalso; lra].
Qed.

Lemma round64_zero x : x == 0 -> round64 x == 0.
Proof.
  intros Hx. unfold round64. rewrite Qred_correct.
  destruct (Qcompare_spec x 0) as [H|H|H]; [reflexivity|exfalso; lra..].
Qed.

Lemma round64_nonneg x : 0 <= x -> 0 <= round64 x.
Proof.
  intros Hx. destruct (Qlt_le_dec 0 x) as [Hpos|Hle].
  - rewrite round64_pos by assumption. apply round_pos_nonneg. lra.
  - rewrite round64_zero by lra. lra.
Qed.

Lemma round64_nonpos x : x <= 0 -> round64 x <= 0.
Proof.
  intros Hx. destruct (Qlt_le_dec x 0) as [Hneg|Hle].
  - rewrite round64_neg by assumption.
    pose proof (round_pos_nonneg (- x)). lra.
  - rewrite round64_zero by lra. lra.
Qed.

(** Rounding keeps the order of any two rationals. *)
Lemma round64_mono x y : x <= y -> round64 x <= round64 y.
Proof.
  intros Hxy.
  destruct (Qlt_le_dec 0 x) as [Hx|Hx].
  - rewrite (round64_pos x), (round64_pos y) by lra. now apply round_pos_mono.
  - destruct (Qlt_le_dec 0 y) as [Hy|Hy].
    + pose proof (round64_nonpos x Hx). pose proof (round64_nonneg y). lra.
    + destruct (Qlt_le_dec y 0) as [Hy'|Hy'].
      * rewrite (round64_neg x), (round64_neg y) by lra.
        pose proof (round_pos_mono (- y) (- x)). lra.
      * pose proof (round64_nonpos x Hx). rewrite (round64_zero y) by lra. lra.
Qed.

(** Equal rationals round to the same float. *)
Lemma round64_Qeq x y : x == y -> round64 x = round64 y.
Proof.
  intros Hxy.
  assert (round64 x == round64 y) as H
    by (apply Qle_antisym; apply round64_mono; lra).
  unfold round64 in *. rewrite !Qred_correct in H.
  apply Qred_complete. exact H.
Qed.

Lemma round_half_even_Qeq x y :
  x == y -> round_half_even x = round_half_even y.
Proof.
  intros Hxy. apply Z.le_antisymm; apply round_half_even_mono; lra.
Qed.

Lemma round_pos_error x :
  0 < x -> Qabs (round_pos x - x) <= pow2 (ulp_exponent x - 1).
Proof.
  intros Hx. unfold round_pos. set (e := ulp_exponent x).
  rewrite (round_half_even_Qeq _ _ (div_pow2 x e)).
  pose proof (round_half_even_error (x * pow2 (- e))) as Herr.
  apply Qabs_Qle_condition in Herr. apply Qabs_Qle_condition.
  pose proof (pow2_opp_mul e) as H1. pose proof (pow2_pos e) as H2.
  pose proof (pow2_pos (- e)) as H3. pose proof (pow2_succ (e - 1)) as H4.
  replace (e - 1 + 1)%Z with e in H4 by lia.
  generalize dependent (inject_Z (round_half_even (x * pow2 (- e)))).
  generalize dependent (pow2 (e - 1)). generalize dependent (pow2 (- e)).
  generalize dependent (pow2 e). intros. split; nra.
Qed.

(** The error of rounding: at most [2 ^ -53] relative to the argument,
    or half the spacing of the subnormal numbers. *)
Lemma round64_error x :
  Qabs (round64 x - x) <= Qabs x * pow2 (-53) + pow2 (-1075).
Proof.
  assert (forall y, 0 < y ->
            Qabs (round_pos y - y) <= y * pow2 (-53) + pow2 (-1075)) as Hpos.
  { intros y Hy. eapply Qle_trans; [apply round_pos_error; assumption|].
    destruct (ilog2_spec y Hy) as [Hlo _].
    pose proof (pow2_pos (-53)). pose proof (pow2_pos (-1075)).
    unfold ulp_exponent.
    destruct (Z.max_spec (ilog2 y - 52) (-1074)) as [[_ ->]|[_ ->]].
    - change (-1074 - 1)%Z with (-1075)%Z.
      assert (0 <= y * pow2 (-53)) by (apply Qmult_le_0_compat; lra). lra.
    - replace (ilog2 y - 52 - 1)%Z with (ilog2 y + -53)%Z by lia.
      rewrite pow2_add.
      assert (pow2 (ilog2 y) * pow2 (-53) <= y * pow2 (-53))
        by (apply Qmult_le_compat_r; lra). lra. }
  destruct (Qlt_le_dec 0 x) as [Hx|Hx].
  - rewrite round64_pos, (Qabs_pos x) by lra. now apply Hpos.
  - destruct (Qlt_le_dec x 0) as [Hx'|Hx'].
    + rewrite round64_neg, (Qabs_neg x) by lra.
      specialize (Hpos (- x) ltac:(lra)).
      apply Qabs_Qle_condition in Hpos. apply Qabs_Qle_condition. lra.
    + rewrite round64_zero by lra.
      pose proof (pow2_pos (-1075)). pose proof (Qabs_nonneg x).
      pose proof (pow2_pos (-53)).
      assert (0 <= Qabs x * pow2 (-53)) by (apply Qmult_le_0_compat; lra).
      apply Qabs_Qle_condition. lra.
Qed.

(** Results that stay in range. *)
Lemma overflows_false y : overflows y = false <-> Qabs y < pow2 1024.
Proof.
  unfold overflows. split.
  - intros H. apply Qnot_le_lt. intros Hle. apply Qle_bool_iff in Hle. congruence.
  - intros H. destruct (Qle_bool (pow2 1024) (Qabs y)) eqn:Hle; [|reflexivity].
    apply Qle_bool_iff in Hle. exfalso. lra.
Qed.

Lemma to_float_finite x :
  Qabs (round64 x) < pow2 1024 -> to_float x = Finite (round64 x).
Proof. intros H%overflows_false. unfold to_float. now rewrite H. Qed.

(** Rounding a number between two floats stays between them. *)
Lemma round64_between lo hi x :
  round64 lo = lo -> round64 hi = hi -> lo <= x <= hi ->
  lo <= round64 x <= hi.
Proof.
  intros Hlo Hhi [H1 H2].
  apply round64_mono in H1, H2. rewrite Hlo in H1. rewrite Hhi in H2.
  split; assumption.
Qed.

Lemma round64_0 : round64 0 = 0.
Proof. reflexivity. Qed.

Lemma round64_1 : round64 1 = 1.
Proof. vm_compute. reflexivity. Qed.

Lemma round64_100 : round64 100 = 100.
Proof. vm_compute. reflexivity. Qed.

Lemma round64_pow2_995 : round64 (Qred (pow2 995)) = Qred (pow2 995).
Proof. vm_compute. reflexivity. Qed.

Lemma round64_pow2_996 : round64 (Qred (pow2 996)) = Qred (pow2 996).
Proof. vm_compute. reflexivity. Qed.

Lemma round64_pow2_m30 : round64 (Qred (pow2 (-30))) = Qred (pow2 (-30)).
Proof. vm_compute. reflexivity. Qed.

End float_facts.

(** ** USD columns *)

Ltac solve_not_usd_field :=
  let Hin := fresh "Hin" in
  unfold usd_fields; intros Hin;
  repeat (apply elem_of_cons in Hin as [?|Hin]; [done|]);
  by apply elem_of_nil in Hin.

Section usd_facts.
  Context (to_datetime : string → result Z) (date_str_of : string → result string).

Lemma process_entry_usd price_data entry data_point :
  process_entry to_datetime date_str_of true (Some price_data) entry
    = Ok data_point →
  ∃ date_str,
    date_str_of (timestamp entry) = Ok date_str
    ∧ usd_columns price_data date_str data_point.
Proof.
  intros (ts & issued_tao & staked_tao & sp & cp & _ & _ & _ & _ & _ & Hdp)
    %process_entry_inv.
  cbv beta zeta in Hdp. destruct Hdp as (date_str & Hdate & ->).
  exists date_str. split; [done|]. unfold usd_columns.
  exists issued_tao, staked_tao, (fsub issued_tao staked_tao).
  pose proof (base_data_point_lookup ts entry issued_tao staked_tao
                (fsub issued_tao staked_tao) sp cp)
    as (_ & Hi & Hs & Hc & _ & _ & Hnone).
  destruct (get_price_for_date price_data date_str) as [price|].
  - pose proof (usd_update_lookup issued_tao staked_tao
                  (fsub issued_tao staked_tao) price
                  (base_data_point ts entry issued_tao staked_tao
                     (fsub issued_tao staked_tao) sp cp))
      as (Hp & Ht & Hsm & Hcm & Hother).
    split; [rewrite Hother; [done|solve_not_usd_field]|].
    split; [rewrite Hother; [done|solve_not_usd_field]|].
    split; [rewrite Hother; [done|solve_not_usd_field]|].
    split; [done|].
    left. intros k Hk. unfold usd_fields in Hk.
    repeat (apply elem_of_cons in Hk as [->|Hk]; [by eexists|]).
    by apply elem_of_nil in Hk.
  - do 3 (split; [done|]). split; [done|by right].
Qed.

End usd_facts.

Lemma Forall2_elem_of_r {A B} (P : A → B → Prop) l k y :
  Forall2 P l k → y ∈ k → ∃ x, x ∈ l ∧ P x y.
Proof.
  induction 1 as [|x y' l k Hxy Hlk IH]; [by intros ?%elem_of_nil|].
  intros [->|Hy]%elem_of_cons.
  - exists x. split; [left|done].
  - destruct (IH Hy) as (x' & Hx' & HP). exists x'. split; [by right|done].
Qed.

(** C7. With a price map supplied, every record yields one row of the
    returned frame (the frame is a rearrangement of the rows of the
    records, none is dropped), and each row either holds all four USD
    fields or none of them. It holds them exactly when the nearest-date
    rule resolves a price for the date of the record, and then they are
    that price and the products of the row's [issued_tao], [staked_tao]
    and [circulating_tao] with it. *)
Theorem usd_fields_all_or_none to_datetime date_str_of cache raw_data
    price_data df :
  process_data to_datetime date_str_of cache raw_data true (Some price_data)
    = Ok df →
  (∃ rows,
     Forall2 (λ entry data_point,
                process_entry to_datetime date_str_of true (Some price_data)
                  entry = Ok data_point)
             raw_data rows
     ∧ df ≡ₚ rows)
  ∧ length df = length raw_data
  ∧ ∀ data_point, data_point ∈ df →
      ∃ entry date_str,
        entry ∈ raw_data
        ∧ date_str_of (timestamp entry) = Ok date_str
        ∧ usd_columns price_data date_str data_point.
Proof.
  intros (prices' & rows & Hrows & _ & -> & _ & Hprices)%process_data_Ok.
  rewrite (Hprices price_data eq_refl eq_refl) in Hrows.
  apply process_entries_Forall2 in Hrows.
  split_and!.
  - exists rows. split; [done|apply sort_values_Permutation].
  - rewrite sort_values_Permutation. symmetry. by eapply Forall2_length.
  - intros data_point Hin. rewrite sort_values_Permutation in Hin.
    destruct (Forall2_elem_of_r _ _ _ _ Hrows Hin) as (entry & Hentry & Hdp).
    apply process_entry_usd in Hdp as (date_str & Hdate & Husd).
    by exists entry, date_str.
Qed.

Lemma usd_fields_all_or_none_witness :
  (∃ rows,
     Forall2 (λ entry data_point,
                process_entry sample_to_datetime sample_date_str_of true
                  (Some sample_prices) entry = Ok data_point)
             [record_jan_2; record_jan_1] rows
     ∧ sample_frame ≡ₚ rows)
  ∧ length sample_frame = 2%nat
  ∧ ∀ data_point, data_point ∈ sample_frame →
      ∃ entry date_str,
        entry ∈ [record_jan_2; record_jan_1]
        ∧ sample_date_str_of (timestamp entry) = Ok date_str
        ∧ usd_columns sample_prices date_str data_point.
Proof.
  apply (usd_fields_all_or_none sample_to_datetime sample_date_str_of Exn
           [record_jan_2; record_jan_1] sample_prices sample_frame).
  apply is_Ok_from_Ok. vm_compute. reflexivity.
Defined.

(** The sample frame: the record of 2 January has no price of its own
    date and gets the price of the next date with one, 5 January. *)
Example sample_frame_prices :
  (λ row, row !! "tao_price_usd"%string) <$> sample_frame =
    [Some (VFloat (Finite 100)); Some (VFloat (Finite 110))].
Proof. vm_compute. reflexivity. Qed.

(** With an empty price map no price is resolved; the rows are emitted
    all the same, without any USD field. *)
Example empty_price_map_rows :
  let r :=
    process_data sample_to_datetime sample_date_str_of Exn
      [record_jan_2; record_jan_1] true (Some ∅) in
  is_Ok r = true
  ∧ (λ row, (λ k, row !! k) <$> usd_fields) <$> from_Ok [] r
      = [[None; None; None; None]; [None; None; None; None]].
Proof. split; vm_compute; reflexivity. Qed.

(** ** Derived metrics of a record *)

Section supply_facts.
  Local Open Scope Q_scope.

Lemma pow2_1024_gt x : x <= Qred (pow2 996) -> x < pow2 1024.
Proof.
  intros H. rewrite Qred_correct in H.
  pose proof (pow2_lt 996 1024 ltac:(lia)). lra.
Qed.

Lemma ratio_range (s i : Z) :
  (0 < i)%Z -> (0 <= s <= i)%Z -> 0 <= inject_Z s / inject_Z i <= 1.
Proof.
  intros Hi [Hs1 Hs2]. rewrite Zle_Qle in Hs1, Hs2. rewrite Zlt_Qlt in Hi.
  change (inject_Z 0) with 0 in Hs1, Hi.
  generalize dependent (inject_Z s). generalize dependent (inject_Z i).
  intros qi Hi qs Hs1 Hs2. split.
  - apply Qle_shift_div_l; [exact Hi|]. lra.
  - apply Qle_shift_div_r; [exact Hi|]. lra.
Qed.

Lemma one_lt_pow2_1024 : 1 < pow2 1024.
Proof. apply (pow2_lt 0 1024). lia. Qed.

Lemma hundred_lt_pow2_1024 : 100 < pow2 1024.
Proof.
  pose proof (pow2_lt 7 1024 ltac:(lia)) as H.
  assert (100 < pow2 7) by reflexivity. lra.
Qed.

(** The staked percentage of a record whose stake is within its supply
    lies between 0 and 100. *)
Lemma staked_percentage_range (s i : Z) :
  (0 < i)%Z -> (0 <= s <= i)%Z ->
  exists ratio p,
    int_truediv s i = Ok (Finite ratio)
    /\ ratio = round64 (inject_Z s / inject_Z i)
    /\ fmul (Finite ratio) (Finite 100) = Finite p
    /\ p = round64 (ratio * 100)
    /\ 0 <= ratio <= 1 /\ 0 <= p <= 100.
Proof.
  intros Hi Hs. pose proof (ratio_range s i Hi Hs) as Hq.
  pose proof (round64_between 0 1 _ round64_0 round64_1 Hq) as Hr.
  set (ratio := round64 (inject_Z s / inject_Z i)) in *.
  assert (0 <= ratio * 100 <= 100) as Hp100 by lra.
  pose proof (round64_between 0 100 _ round64_0 round64_100 Hp100) as Hp.
  pose proof one_lt_pow2_1024. pose proof hundred_lt_pow2_1024.
  exists ratio, (round64 (ratio * 100)). split; [|split; [|split; [|split; [|split]]]];
    try reflexivity; try assumption.
  - unfold int_truediv. rewrite (proj2 (Z.eqb_neq i 0)) by lia. fold ratio.
    rewrite (proj2 (overflows_false ratio)); [reflexivity|].
    rewrite Qabs_pos by lra. lra.
  - unfold fmul. apply to_float_finite. rewrite Qabs_pos by lra. lra.
Qed.

Lemma tao_range (s i : Z) :
  (0 <= s <= i)%Z -> round64 (inject_Z i) < pow2 1024 ->
  0 <= round64 (inject_Z s) <= round64 (inject_Z i)
  /\ 0 <= tao s <= tao i /\ tao i <= Qred (pow2 995).
Proof.
  intros [Hs1 Hs2] Hfi. rewrite Zle_Qle in Hs1, Hs2.
  change (inject_Z 0) with 0 in Hs1.
  pose proof (round64_mono _ _ Hs1) as H1. rewrite round64_0 in H1.
  pose proof (round64_mono _ _ Hs2) as H2.
  unfold tao.
  set (fs := round64 (inject_Z s)) in *. set (fi := round64 (inject_Z i)) in *.
  assert (0 <= fs / 1000000000 <= fi / 1000000000) as [H3 H4].
  { split; [apply Qle_shift_div_l; [reflexivity|lra]|].
    apply Qmult_le_compat_r; [exact H2|discriminate]. }
  assert (fi / 1000000000 <= Qred (pow2 995)) as H5.
  { apply Qle_shift_div_r; [reflexivity|]. rewrite Qred_correct.
    assert (pow2 1024 <= pow2 995 * 1000000000); [|lra].
    replace 1024%Z with (995 + 29)%Z by lia. rewrite pow2_add.
    pose proof (pow2_pos 995). assert (pow2 29 <= 1000000000) by discriminate.
    nra. }
  pose proof (round64_mono _ _ H3) as H6. rewrite round64_0 in H6.
  pose proof (round64_mono _ _ H4) as H7.
  pose proof (round64_mono _ _ H5) as H8. rewrite round64_pow2_995 in H8.
  repeat split; assumption.
Qed.

Lemma tao_lower (i : Z) : (0 < i)%Z -> Qred (pow2 (-30)) <= tao i.
Proof.
  intros Hi. assert (1 <= i)%Z as H1 by lia. rewrite Zle_Qle in H1.
  change (inject_Z 1) with 1 in H1.
  apply round64_mono in H1. rewrite round64_1 in H1.
  unfold tao. rewrite <- round64_pow2_m30. apply round64_mono.
  apply Qle_shift_div_l; [reflexivity|]. rewrite Qred_correct.
  assert (pow2 (-30) * 1000000000 <= 1) by discriminate. lra.
Qed.

(** What [z / 1e9] evaluates to. *)
Lemma tao_amount (z : Z) x :
  (0 <= z)%Z ->
  (f ← float_of_int z; fdiv f (Finite 1000000000)) = Ok x ->
  x = Finite (tao z) /\ round64 (inject_Z z) < pow2 1024.
Proof.
  intros Hz H. apply bind_Ok in H as (f & Hf & H).
  unfold float_of_int in Hf.
  destruct (overflows (round64 (inject_Z z))) eqn:Hov; [discriminate|].
  injection Hf as <-. apply overflows_false in Hov.
  assert (0 <= round64 (inject_Z z)) as Hnn.
  { apply round64_nonneg. rewrite Zle_Qle in Hz. exact Hz. }
  rewrite Qabs_pos in Hov by exact Hnn.
  destruct (tao_range z z ltac:(lia) Hov) as (_ & [Ht0 _] & Ht1).
  unfold fdiv in H. simpl in H. injection H as <-.
  split; [|exact Hov].
  apply to_float_finite. fold (tao z). rewrite Qabs_pos by exact Ht0.
  apply pow2_1024_gt. eapply Qle_trans; [exact Ht1|].
  rewrite !Qred_correct. apply pow2_le. lia.
Qed.

(** Adding the stake back to the circulating amount gives the supply
    again, up to two roundings. *)
Lemma circulating_sum (it st : Q) :
  0 <= st <= it -> Qred (pow2 (-30)) <= it <= Qred (pow2 995) ->
  exists ct total,
    fsub (Finite it) (Finite st) = Finite ct
    /\ fadd (Finite ct) (Finite st) = Finite total
    /\ ct = round64 (it - st) /\ total = round64 (ct + st)
    /\ 0 <= ct
    /\ Qabs (total - it) <= it * pow2 (-51).
Proof.
  intros [Hst0 Hst] [Hlo Hhi]. rewrite Qred_correct in Hlo.
  assert (0 <= it - st <= Qred (pow2 995)) as HD by lra.
  pose proof (round64_between 0 _ _ round64_0 round64_pow2_995 HD) as [Hct0 Hct1].
  pose proof (round64_error (it - st)) as E1.
  set (ct := round64 (it - st)) in *.
  assert (0 <= ct + st <= Qred (pow2 996)) as HS.
  { split; [lra|]. rewrite Qred_correct in *.
    pose proof (pow2_succ 995) as H. change (995 + 1)%Z with 996%Z in H. lra. }
  pose proof (round64_between 0 _ _ round64_0 round64_pow2_996 HS) as [Ht0 Ht1].
  pose proof (round64_error (ct + st)) as E2.
  set (total := round64 (ct + st)) in *.
  exists ct, total. split; [|split; [|split; [|split; [|split]]]];
    try reflexivity; try assumption.
  - unfold fsub. apply to_float_finite. fold ct. rewrite Qabs_pos by assumption.
    apply pow2_1024_gt. eapply Qle_trans; [exact Hct1|].
    rewrite !Qred_correct. apply pow2_le. lia.
  - unfold fadd. apply to_float_finite. fold total.
    rewrite Qabs_pos by assumption. now apply pow2_1024_gt.
  - rewrite (Qabs_pos (it - st)) in E1 by lra.
    rewrite (Qabs_pos (ct + st)) in E2 by lra.
    apply Qabs_Qle_condition in E1, E2. apply Qabs_Qle_condition.
    assert (pow2 (-51) == 4 * pow2 (-53)) as H51 by reflexivity.
    assert (3 * pow2 (-1075) <= pow2 (-30) * pow2 (-53)) as Heta by discriminate.
    assert (pow2 (-53) <= 1) as Hu1 by discriminate.
    pose proof (pow2_pos (-53)) as Hu0. pose proof (pow2_pos (-1075)) as He0.
    rewrite H51. clear H51 Ht1 Hct1 HS HD Hhi.
    generalize dependent (pow2 (-53)). intros u.
    generalize dependent (pow2 (-1075)). intros eta.
    generalize dependent (pow2 (-30)). intros lo.
    intros.
    assert (lo * u <= it * u) by nra.
    assert (0 <= (it - st) * u <= it * u) by nra.
    assert (0 <= ct * u <= it * u + it * u + eta) by nra.
    assert (0 <= st * u <= it * u) by nra.
    assert ((ct + st) * u <= it * u + it * u + eta) by nra.
    split; nra.
Qed.

End supply_facts.

Section record_facts.
  Context (to_datetime : string → result Z) (date_str_of : string → result string).

(** The fields of a row that do not depend on the price. *)
Lemma process_entry_fields include_usd prices entry data_point :
  process_entry to_datetime date_str_of include_usd prices entry
    = Ok data_point →
  ∃ issued_tao staked_tao sp cp,
    (if 0 <? issued entry
     then ratio ← int_truediv (staked entry) (issued entry);
          Ok (VFloat (fmul ratio (Finite 100)))
     else Ok (VInt 0)) = Ok sp
    ∧ (x ← float_of_int (issued entry); fdiv x (Finite 1000000000))
        = Ok issued_tao
    ∧ (x ← float_of_int (staked entry); fdiv x (Finite 1000000000))
        = Ok staked_tao
    ∧ (if fpositive issued_tao
       then ratio ← fdiv (fsub issued_tao staked_tao) issued_tao;
            Ok (VFloat (fmul ratio (Finite 100)))
       else Ok (VInt 0)) = Ok cp
    ∧ data_point !! "issued_tao"%string = Some (VFloat issued_tao)
    ∧ data_point !! "staked_tao"%string = Some (VFloat staked_tao)
    ∧ data_point !! "circulating_tao"%string
        = Some (VFloat (fsub issued_tao staked_tao))
    ∧ data_point !! "staked_percentage"%string = Some sp
    ∧ data_point !! "circulating_percentage"%string = Some cp.
Proof.
  intros (ts & issued_tao & staked_tao & sp & cp & _ & Hsp & Hi & Hs & Hcp & Hdp)
    %process_entry_inv.
  exists issued_tao, staked_tao, sp, cp.
  do 4 (split; [done|]). cbv beta zeta in Hdp.
  pose proof (base_data_point_lookup ts entry issued_tao staked_tao
                (fsub issued_tao staked_tao) sp cp)
    as (_ & Bi & Bs & Bc & Bsp & Bcp & _).
  assert (∀ k, k ∉ usd_fields →
            data_point !! k =
              base_data_point ts entry issued_tao staked_tao
                (fsub issued_tao staked_tao) sp cp !! k) as Hk.
  { intros k Hnot. destruct include_usd; [|by subst].
    destruct prices as [price_data|]; [|by subst].
    destruct Hdp as (date_str & _ & ->).
    destruct (get_price_for_date price_data date_str) as [price|]; [|done].
    by apply usd_update_lookup. }
  rewrite !Hk by solve_not_usd_field. done.
Qed.

End record_facts.

(** C8. For a record with a positive supply and a stake between 0 and
    the supply, the row that normalisation emits has a
    [staked_percentage] between 0 and 100, computed from the raw integers
    as the rounded quotient [staked / issued] times 100. Its
    [circulating_tao] is the rounded difference of [issued_tao] and
    [staked_tao], and adding [staked_tao] back gives [issued_tao] up to
    rounding: the float sum differs from [issued_tao] by at most
    [2 ^ -51] times [issued_tao]. *)
Theorem normalised_supply_invariants to_datetime date_str_of include_usd
    prices entry data_point :
  0 < issued entry →
  0 ≤ staked entry ≤ issued entry →
  process_entry to_datetime date_str_of include_usd prices entry
    = Ok data_point →
  ∃ ratio p issued_tao staked_tao circulating_tao total,
    int_truediv (staked entry) (issued entry) = Ok (Finite ratio)
    ∧ fmul (Finite ratio) (Finite 100) = Finite p
    ∧ data_point !! "staked_percentage"%string = Some (VFloat (Finite p))
    ∧ (0 <= p <= 100)%Q
    ∧ data_point !! "issued_tao"%string = Some (VFloat (Finite issued_tao))
    ∧ data_point !! "staked_tao"%string = Some (VFloat (Finite staked_tao))
    ∧ data_point !! "circulating_tao"%string
        = Some (VFloat (Finite circulating_tao))
    ∧ fsub (Finite issued_tao) (Finite staked_tao) = Finite circulating_tao
    ∧ fadd (Finite circulating_tao) (Finite staked_tao) = Finite total
    ∧ (Qabs (total - issued_tao) <= issued_tao * pow2 (-51))%Q.
Proof.
  intros Hissued Hstaked
    (it & st & sp & cp & Hsp & Hi & Hs & _ & Di & Ds & Dc & Dsp & _)
    %process_entry_fields.
  destruct (staked_percentage_range _ _ Hissued Hstaked)
    as (ratio & p & Hratio & _ & Hp & _ & _ & Hp100).
  apply tao_amount in Hi as [-> Hfi]; [|lia].
  apply tao_amount in Hs as [-> _]; [|lia].
  destruct (tao_range _ _ Hstaked Hfi) as (_ & Hst & Hhi).
  pose proof (tao_lower _ Hissued) as Hlo.
  destruct (circulating_sum (tao (issued entry)) (tao (staked entry)) Hst
              (conj Hlo Hhi))
    as (ct & total & Hct & Htotal & _ & _ & _ & Hsum).
  exists ratio, p, (tao (issued entry)), (tao (staked entry)), ct, total.
  rewrite (proj2 (Z.ltb_lt 0 (issued entry)) Hissued), Hratio in Hsp.
  change (Ok (VFloat (fmul (Finite ratio) (Finite 100))) = Ok sp) in Hsp.
  injection Hsp as <-.
  change (to_float (ratio * 100)) with (fmul (Finite ratio) (Finite 100)) in Dsp.
  rewrite Hp in Dsp. rewrite Hct in Dc.
  destruct Hp100. split_and!; done.
Qed.

Lemma normalised_supply_invariants_witness :
  ∃ ratio p issued_tao staked_tao circulating_tao total,
    int_truediv (staked record_jan_1) (issued record_jan_1) = Ok (Finite ratio)
    ∧ fmul (Finite ratio) (Finite 100) = Finite p
    ∧ row_jan_1 !! "staked_percentage"%string = Some (VFloat (Finite p))
    ∧ (0 <= p <= 100)%Q
    ∧ row_jan_1 !! "issued_tao"%string = Some (VFloat (Finite issued_tao))
    ∧ row_jan_1 !! "staked_tao"%string = Some (VFloat (Finite staked_tao))
    ∧ row_jan_1 !! "circulating_tao"%string
        = Some (VFloat (Finite circulating_tao))
    ∧ fsub (Finite issued_tao) (Finite staked_tao) = Finite circulating_tao
    ∧ fadd (Finite circulating_tao) (Finite staked_tao) = Finite total
    ∧ (Qabs (total - issued_tao) <= issued_tao * pow2 (-51))%Q.
Proof.
  apply (normalised_supply_invariants sample_to_datetime sample_date_str_of
           true (Some sample_prices) record_jan_1 row_jan_1).
  - reflexivity.
  - vm_compute. split; discriminate.
  - apply is_Ok_from_Ok. vm_compute. reflexivity.
Defined.

(** The first sample record: 6 of 21 million TAO are staked, and the
    percentage is the float nearest to 28.571428571428573. *)
Example row_jan_1_values :
  row_jan_1 !! "staked_percentage"%string
    = Some (VFloat (Finite (2010535547933257 # 70368744177664)))
  ∧ row_jan_1 !! "issued_tao"%string = Some (VFloat (Finite 21000000))
  ∧ row_jan_1 !! "staked_tao"%string = Some (VFloat (Finite 6000000))
  ∧ row_jan_1 !! "circulating_tao"%string = Some (VFloat (Finite 15000000)).
Proof. vm_compute. done. Qed.

(** ** More on the paginated fetch *)

Section fetch_more.
  Context {R : Type} (transport : nat → Z → response R).
  Implicit Types (page : Z) (all_data : list R).

(** The retry loop never needs more fuel than the attempts left. *)
Lemma retry_loop_fuel fuel max_retries retry_count n page all_data :
  (max_retries - retry_count ≤ fuel)%nat →
  (retry_loop transport fuel max_retries retry_count n page all_data).1.1
    ≠ ExitOutOfFuel.
Proof.
  revert retry_count n.
  induction fuel as [|fuel IH]; intros retry_count n Hfuel; simpl.
  - assert ((retry_count <? max_retries)%nat = false) as ->; [|done].
    apply Nat.ltb_nlt. lia.
  - destruct (retry_count <? max_retries)%nat eqn:Hlt; [|done].
    apply Nat.ltb_lt in Hlt.
    destruct (transport n page) as [| | | |b].
    + destruct (S retry_count <? max_retries)%nat; [|done].
      specialize (IH (S retry_count) (S n) ltac:(lia)).
      by destruct (retry_loop _ _ _ _ _ _ _) as [[ex n'] evs].
    + specialize (IH (S retry_count) (S n) ltac:(lia)).
      by destruct (retry_loop _ _ _ _ _ _ _) as [[ex n'] evs].
    + destruct (S retry_count <? max_retries)%nat; [|done].
      specialize (IH (S retry_count) (S n) ltac:(lia)).
      by destruct (retry_loop _ _ _ _ _ _ _) as [[ex n'] evs].
    + done.
    + destruct (data b) as [[|r page_data]|]; [done| |done].
      by destruct (page >=? total_pages_of b).
Qed.

(** An exception leaves the retry loop only on a malformed body. *)
Lemma retry_loop_raise fuel max_retries retry_count n page all_data :
  (∀ m, transport m page ≠ Malformed) →
  (retry_loop transport fuel max_retries retry_count n page all_data).1.1
    ≠ ExitRaise.
Proof.
  intros Hwell. revert retry_count n.
  induction fuel as [|fuel IH]; intros retry_count n; simpl;
    destruct (retry_count <? max_retries)%nat; try done.
  pose proof (Hwell n) as Hn.
  destruct (transport n page) as [| | | |b].
  - destruct (S retry_count <? max_retries)%nat; [|done].
    specialize (IH (S retry_count) (S n)).
    by destruct (retry_loop _ _ _ _ _ _ _) as [[ex n'] evs].
  - specialize (IH (S retry_count) (S n)).
    by destruct (retry_loop _ _ _ _ _ _ _) as [[ex n'] evs].
  - destruct (S retry_count <? max_retries)%nat; [|done].
    specialize (IH (S retry_count) (S n)).
    by destruct (retry_loop _ _ _ _ _ _ _) as [[ex n'] evs].
  - done.
  - destruct (data b) as [[|r page_data]|]; [done| |done].
    by destruct (page >=? total_pages_of b).
Qed.

Lemma page_loop_raise fuel max_retries page n all_data :
  (∀ m p, transport m p ≠ Malformed) →
  (page_loop transport fuel max_retries page n all_data).1 ≠ Raised.
Proof.
  intros Hwell. revert page n all_data.
  induction fuel as [|fuel IH]; intros page n all_data; [done|].
  cbn [page_loop].
  pose proof (retry_loop_raise max_retries max_retries 0 n page all_data
                (λ m, Hwell m page)) as Hraise.
  destruct (retry_loop _ _ _ _ _ _ _) as [[ex n'] evs]. simpl in Hraise.
  destruct ex as [all_data'|all_data'| |]; try done.
  specialize (IH (page + 1) n' all_data').
  by destruct (page_loop _ _ _ _ _ _).
Qed.

(** The retry loop issues at most as many requests as attempts are
    left. *)
Lemma retry_loop_requests_length fuel max_retries retry_count n page all_data :
  (length (requests
             (retry_loop transport fuel max_retries retry_count n page all_data).2)
   ≤ max_retries - retry_count)%nat.
Proof.
  revert retry_count n.
  induction fuel as [|fuel IH]; intros retry_count n; simpl;
    destruct (retry_count <? max_retries)%nat eqn:Hlt; simpl; try lia.
  apply Nat.ltb_lt in Hlt.
  destruct (transport n page) as [| | | |b].
  - destruct (S retry_count <? max_retries)%nat; [|simpl; lia].
    specialize (IH (S retry_count) (S n)).
    destruct (retry_loop _ _ _ _ _ _ _) as [[ex n'] evs]. simpl in *. lia.
  - specialize (IH (S retry_count) (S n)).
    destruct (retry_loop _ _ _ _ _ _ _) as [[ex n'] evs]. simpl in *. lia.
  - destruct (S retry_count <? max_retries)%nat; [|simpl; lia].
    specialize (IH (S retry_count) (S n)).
    destruct (retry_loop _ _ _ _ _ _ _) as [[ex n'] evs]. simpl in *. lia.
  - simpl. lia.
  - destruct (data b) as [[|r page_data]|]; [simpl; lia| |simpl; lia].
    destruct (page >=? total_pages_of b); simpl; lia.
Qed.

Lemma count_page_app page l k :
  count_page page (l ++ k) = (count_page page l + count_page page k)%nat.
Proof. unfold count_page. by rewrite filter_app, length_app. Qed.

Lemma count_page_le_length page l : (count_page page l ≤ length l)%nat.
Proof. unfold count_page. apply length_filter. Qed.

Lemma count_page_absent page l :
  Forall (λ p, p ≠ page) l → count_page page l = 0%nat.
Proof.
  unfold count_page. induction 1 as [|p l Hp Hl IH]; [done|].
  rewrite filter_cons. by destruct (decide (p = page)).
Qed.

(** The pages requested from the state [page] on: in ascending order,
    and none more often than [max_retries] times. *)
Lemma page_loop_trace fuel max_retries page n all_data :
  let pages :=
    requests (page_loop transport fuel max_retries page n all_data).2 in
  StronglySorted Z.le pages
  ∧ ∀ p, (count_page p pages ≤ max_retries)%nat.
Proof.
  revert page n all_data.
  induction fuel as [|fuel IH]; intros page n all_data; simpl.
  { split; [constructor|]. intros p. unfold count_page. simpl. lia. }
  pose proof (retry_loop_requests transport max_retries max_retries 0 n page
                all_data) as Hsame.
  pose proof (retry_loop_requests_length max_retries max_retries 0 n page
                all_data) as Hlen.
  destruct (retry_loop _ _ _ _ _ _ _) as [[ex n'] evs]. simpl in Hsame, Hlen.
  assert (StronglySorted Z.le (requests evs)) as Hsorted.
  { clear Hlen. induction Hsame as [|q l -> Hl IHl]; constructor; [done|].
    eapply Forall_impl; [done|]. simpl. lia. }
  assert (∀ p, (count_page p (requests evs) ≤ max_retries)%nat) as Hcount.
  { intros p. pose proof (count_page_le_length p (requests evs)). lia. }
  destruct ex as [all_data'|all_data'| |]; simpl; try done.
  specialize (IH (page + 1) n' all_data').
  pose proof (page_loop_requests transport fuel max_retries (page + 1) n'
                all_data') as Hlater.
  destruct (page_loop _ _ _ _ _ _) as [out evs']. simpl in *.
  destruct IH as [IHsorted IHcount].
  rewrite requests_app, requests_Sleep. split.
  - apply StronglySorted_app_2; [|done..].
    intros x1 x2 Hx1 Hx2.
    eapply Forall_forall in Hsame; [|done]. eapply Forall_forall in Hlater; [|done].
    simpl in *. lia.
  - intros p. rewrite count_page_app.
    destruct (decide (p = page)) as [->|Hne].
    + rewrite (count_page_absent page (requests evs')); [specialize (Hcount page); lia|].
      eapply Forall_impl; [done|]. simpl. lia.
    + rewrite (count_page_absent p (requests evs)); [apply IHcount|].
      eapply Forall_impl; [done|]. simpl. congruence.
Qed.

End fetch_more.

Section fetch_raise.
  Context {R : Type} (transport : nat → Z → response R).
  Implicit Types (page : Z) (all_data : list R).




End fetch_raise.



(** The records of page 1 are lost when page 2 is malformed. *)
Example page_2_malformed_trace :
  fetch_all_data page_2_malformed 2
  = (Raised, [Request 1; Sleep 3; Request 2]).
Proof. reflexivity. Qed.

(** X2. The pages a fetch requests: the cursor starts at 1 and never goes
    back, and no page is requested more than [MAX_RETRIES] times. *)
Theorem fetch_all_data_request_discipline {R}
    (transport : nat → Z → response R) fuel :
  let pages := requests (fetch_all_data transport fuel).2 in
  StronglySorted Z.le pages
  ∧ Forall (λ p, 1 ≤ p) pages
  ∧ ∀ p, (count_page p pages ≤ MAX_RETRIES)%nat.
Proof.
  destruct (page_loop_trace transport fuel MAX_RETRIES 1 0 []) as [Hsorted Hcount].
  split_and!; [done| |done]. apply page_loop_requests.
Qed.

Section fetch_always_429.
  Context {R : Type} (transport : nat → Z → response R).

Lemma retry_loop_429_requests max_retries page (all_data : list R) :
  (∀ n, transport n page = Status429) →
  ∀ fuel retry_count n,
    (max_retries - retry_count ≤ fuel)%nat →
    length (requests
              (retry_loop transport fuel max_retries retry_count n page
                 all_data).2)
    = (max_retries - retry_count)%nat.
Proof.
  intros H429. induction fuel as [|fuel IH]; intros retry_count n Hfuel.
  - rewrite retry_loop_exhausted by lia. simpl. lia.
  - destruct (decide (retry_count < max_retries)%nat) as [Hlt|Hge].
    + rewrite retry_loop_429 by done.
      specialize (IH (S retry_count) (S n) ltac:(lia)).
      destruct (retry_loop _ _ _ _ _ _ _) as [[ex n'] evs].
      simpl in *. rewrite IH. lia.
    + rewrite retry_loop_exhausted by done. simpl. lia.
Qed.

Lemma page_loop_429_requests max_retries :
  (∀ n page, transport n page = Status429) →
  ∀ fuel page n (all_data : list R),
    length (requests (page_loop transport fuel max_retries page n all_data).2)
    = (fuel * max_retries)%nat.
Proof.
  intros H429. induction fuel as [|fuel IH]; intros page n all_data; [done|].
  cbn [page_loop].
  pose proof (retry_loop_429_requests max_retries page all_data
                (λ m, H429 m page) max_retries 0%nat n ltac:(lia)) as Hlen.
  destruct (retry_loop_429_falls_through transport max_retries page all_data
              max_retries 0%nat n) as (n' & evs & Heq); [lia|done|].
  rewrite Heq in Hlen |- *. simpl in Hlen.
  specialize (IH (page + 1) n' all_data).
  destruct (page_loop _ _ _ _ _ _) as [out evs']. simpl in *.
  rewrite requests_app, requests_Sleep, length_app, IH, Hlen. lia.
Qed.

End fetch_always_429.

(** X3. Against an upstream that answers every request with status 429 the
    fetch never returns: whatever bound is put on the number of pages
    visited, the bound is reached, no value is returned and no
    exception is raised, and every page visited has been requested
    [MAX_RETRIES] times. *)
Theorem fetch_all_data_rate_limited_forever {R}
    (transport : nat → Z → response R) :
  (∀ n page, transport n page = Status429) →
  ∀ fuel,
    (fetch_all_data transport fuel).1 = OutOfFuel
    ∧ length (requests (fetch_all_data transport fuel).2)
      = (fuel * MAX_RETRIES)%nat.
Proof.
  intros H429 fuel. split.
  - by apply page_loop_always_429.
  - by apply page_loop_429_requests.
Qed.

Lemma fetch_all_data_rate_limited_forever_witness :
  (fetch_all_data always_rate_limited 5).1 = OutOfFuel
  ∧ length (requests (fetch_all_data always_rate_limited 5).2)
    = (5 * MAX_RETRIES)%nat.
Proof.
  apply (fetch_all_data_rate_limited_forever always_rate_limited).
  intros n page. reflexivity.
Defined.

Section fetch_recovery.
  Context {R : Type} (transport : nat → Z → response R).
  Context (total_pages : Z) (pages : Z → list R).

(** The response of a healthy upstream to a request for [page]. *)
Local Abbreviation page_ok page :=
  (Success (Body (Some (pages page)) (Some (Some total_pages)))).

(** One page, when each request for it fails in a way that is retried or
    succeeds, and no three requests in a row fail: the retry loop ends
    with the records of the page appended. *)
Lemma retry_loop_recovers page n (all_data : list R) :
  pages page ≠ [] →
  (∀ m, is_failure (transport m page) ∨ transport m page = page_ok page) →
  (∀ m, ∃ j, (j < 3)%nat ∧ transport (m + j)%nat page = page_ok page) →
  ∃ n' evs,
    retry_loop transport 3 3 0 n page all_data =
      (if page >=? total_pages
       then ExitReturn (all_data ++ pages page)
       else ExitLoop (all_data ++ pages page), n', evs).
Proof.
  intros Hne Hkind Hsoon.
  assert (∀ fuel retry_count m,
            (retry_count < 3)%nat → transport m page = page_ok page →
            retry_loop transport (S fuel) 3 retry_count m page all_data =
              (if page >=? total_pages
               then ExitReturn (all_data ++ pages page)
               else ExitLoop (all_data ++ pages page), S m, [Request page]))
    as Hok.
  { intros fuel retry_count m Hlt Hresp.
    rewrite (retry_loop_data transport _ _ _ _ _ _ _ (pages page) Hlt Hresp)
      by done.
    unfold total_pages_of. simpl. by destruct (page >=? total_pages). }
  assert (∀ fuel retry_count m,
            (S retry_count < 3)%nat → is_failure (transport m page) →
            ∃ w,
              retry_loop transport (S fuel) 3 retry_count m page all_data =
                let '(ex, n', evs) :=
                  retry_loop transport fuel 3 (S retry_count) (S m) page
                    all_data in
                (ex, n', Request page :: Sleep w :: evs)) as Hfail.
  { intros fuel retry_count m Hlt [H429|Herr].
    - eexists. by rewrite retry_loop_429 by (done || lia).
    - eexists. by rewrite retry_loop_error_retry by done. }
  destruct (Hsoon n) as (j & Hj & Hsuccess).
  destruct (Hkind n) as [Hf0|Hs0]; [|rewrite Hok by (done || lia); eauto].
  destruct (Hfail 2%nat 0%nat n ltac:(lia) Hf0) as [w0 ->].
  destruct (Hkind (S n)) as [Hf1|Hs1]; [|rewrite Hok by (done || lia); eauto].
  destruct (Hfail 1%nat 1%nat (S n) ltac:(lia) Hf1) as [w1 ->].
  assert (transport (S (S n)) page = page_ok page) as Hs2.
  { destruct j as [|[|[|j]]]; [| | |lia].
    - rewrite Nat.add_0_r in Hsuccess. rewrite Hsuccess in Hf0.
      by destruct Hf0 as [?|[?|?]].
    - replace (n + 1)%nat with (S n) in Hsuccess by lia.
      rewrite Hsuccess in Hf1. by destruct Hf1 as [?|[?|?]].
    - by replace (n + 2)%nat with (S (S n)) in Hsuccess by lia. }
  rewrite Hok by (done || lia). eauto.
Qed.

(** All pages, under the same conditions. *)
Lemma page_loop_recovers (m : nat) :
  (∀ page, 1 ≤ page ≤ total_pages → pages page ≠ []) →
  (∀ n page, 1 ≤ page ≤ total_pages →
     is_failure (transport n page) ∨ transport n page = page_ok page) →
  (∀ n page, 1 ≤ page ≤ total_pages →
     ∃ j, (j < 3)%nat ∧ transport (n + j)%nat page = page_ok page) →
  ∀ fuel page n (all_data : list R),
    1 ≤ page → page + Z.of_nat m = total_pages → (m < fuel)%nat →
    (page_loop transport fuel MAX_RETRIES page n all_data).1 =
      Returned (all_data ++ concat (pages <$> seqZ page (Z.of_nat (S m)))).
Proof.
  intros Hne Hkind Hsoon.
  induction m as [|m IH]; intros fuel page n all_data Hpage Hm Hfuel;
    (destruct fuel as [|fuel]; [lia|]);
    (assert (1 ≤ page ≤ total_pages) as Hrange by lia);
    destruct (retry_loop_recovers page n all_data (Hne page Hrange)
                (λ k, Hkind k page Hrange) (λ k, Hsoon k page Hrange))
      as (n' & evs & Heq);
    unfold MAX_RETRIES; cbn [page_loop]; rewrite Heq.
  - rewrite (proj2 (Z.geb_le _ _)) by lia.
    rewrite (seqZ_cons page (Z.of_nat 1)), seqZ_nil by lia.
    simpl. by rewrite app_nil_r.
  - assert ((page >=? total_pages) = false) as ->.
    { apply not_true_is_false. rewrite Z.geb_le. lia. }
    specialize (IH fuel (page + 1) n' (all_data ++ pages page)
                  ltac:(lia) ltac:(lia) ltac:(lia)).
    fold MAX_RETRIES.
    destruct (page_loop _ _ _ _ _ _) as [out evs']. simpl in *. rewrite IH.
    rewrite (seqZ_cons page (Z.of_nat (S (S m)))) by lia.
    replace (Z.pred (Z.of_nat (S (S m)))) with (Z.of_nat (S m)) by lia.
    replace (Z.succ page) with (page + 1) by lia.
    by rewrite fmap_cons, concat_cons, (assoc_L (++)).
Qed.

End fetch_recovery.

(** X4. Transient failures are recovered. Against an upstream with
    [total_pages] non-empty pages, where every request either fails in a
    way that is retried (status 429, a transport error, an HTTP error) or
    succeeds, and where no three requests in a row fail for one page, the
    fetch returns the records of all the pages, in order: a page that
    fails at most twice before it succeeds loses nothing. *)
Theorem fetch_all_data_recovers {R} (transport : nat → Z → response R)
    (total_pages : Z) (pages : Z → list R) (fuel : nat) :
  1 ≤ total_pages →
  (∀ page, 1 ≤ page ≤ total_pages → pages page ≠ []) →
  (∀ n page, 1 ≤ page ≤ total_pages →
     is_failure (transport n page)
     ∨ transport n page =
         Success (Body (Some (pages page)) (Some (Some total_pages)))) →
  (∀ n page, 1 ≤ page ≤ total_pages →
     ∃ j, (j < 3)%nat
          ∧ transport (n + j)%nat page =
              Success (Body (Some (pages page)) (Some (Some total_pages)))) →
  (Z.to_nat total_pages ≤ fuel)%nat →
  (fetch_all_data transport fuel).1
    = Returned (concat (pages <$> seqZ 1 total_pages)).
Proof.
  intros Htotal Hne Hkind Hsoon Hfuel. unfold fetch_all_data.
  rewrite (page_loop_recovers transport total_pages pages
             (Z.to_nat (total_pages - 1)) Hne Hkind Hsoon) by lia.
  by replace (Z.of_nat (S (Z.to_nat (total_pages - 1)))) with total_pages by lia.
Qed.

Lemma fetch_all_data_recovers_witness :
  (fetch_all_data flaky_two_pages 2).1 = Returned [10; 11; 20; 21].
Proof.
  apply (fetch_all_data_recovers flaky_two_pages 2
           (λ page, [10 * page; 10 * page + 1]) 2%nat).
  - lia.
  - done.
  - intros n page _. unfold flaky_two_pages, is_failure, is_error.
    destruct n as [|[|[|n]]]; auto.
  - intros n page _. unfold flaky_two_pages.
    destruct n as [|[|[|n]]].
    + exists 1%nat. split; [lia|done].
    + exists 0%nat. split; [lia|done].
    + exists 1%nat. split; [lia|done].
    + exists 0%nat. split; [lia|]. by rewrite Nat.add_0_r.
  - simpl. lia.
Defined.

Example flaky_two_pages_trace :
  (fetch_all_data flaky_two_pages 2).2 =
    [Request 1; Sleep 6; Request 1; Sleep 3;
     Request 2; Sleep 2; Request 2].
Proof. reflexivity. Qed.

Section fetch_exhaustion.
  Context {R : Type} (transport : nat → Z → response R).

Lemma retry_loop_errors_requests max_retries page (all_data : list R) :
  (∀ n, is_error (transport n page)) →
  ∀ fuel retry_count n,
    (retry_count < max_retries)%nat →
    (max_retries - retry_count ≤ fuel)%nat →
    ∃ n' evs,
      retry_loop transport fuel max_retries retry_count n page all_data =
        (ExitReturn all_data, n', evs)
      ∧ requests evs = replicate (max_retries - retry_count) page.
Proof.
  intros Herr. induction fuel as [|fuel IH]; intros retry_count n Hlt Hfuel; [lia|].
  destruct (decide (S retry_count < max_retries)%nat) as [Hmore|Hlast].
  - rewrite retry_loop_error_retry by done.
    destruct (IH (S retry_count) (S n)) as (n' & evs & -> & Hreq); [done|lia|].
    eexists _, _. split; [done|].
    rewrite requests_Request, requests_Sleep, Hreq.
    by replace (max_retries - retry_count)%nat
      with (S (max_retries - S retry_count)) by lia.
  - rewrite retry_loop_error_last by done.
    eexists _, _. split; [done|].
    by replace (max_retries - retry_count)%nat with 1%nat by lia.
Qed.

Lemma page_loop_error_exhaustion (total_pages k : Z) (pages : Z → list R)
    (m : nat) :
  k < total_pages →
  (∀ n page, 1 ≤ page ≤ k →
     transport n page =
       Success (Body (Some (pages page)) (Some (Some total_pages)))
     ∧ pages page ≠ []) →
  (∀ n, is_error (transport n (k + 1))) →
  ∀ fuel page n (all_data : list R),
    1 ≤ page → page + Z.of_nat m = k + 1 → (m < fuel)%nat →
    ∃ evs,
      page_loop transport fuel MAX_RETRIES page n all_data =
        (Returned (all_data ++ concat (pages <$> seqZ page (Z.of_nat m))), evs)
      ∧ requests evs = seqZ page (Z.of_nat m) ++ replicate MAX_RETRIES (k + 1).
Proof.
  intros Hk Hup Herr.
  induction m as [|m IH]; intros fuel page n all_data Hpage Hm Hfuel;
    (destruct fuel as [|fuel]; [lia|]).
  - assert (page = k + 1) as -> by lia.
    unfold MAX_RETRIES. cbn [page_loop].
    destruct (retry_loop_errors_requests 3 (k + 1) all_data Herr 3 0%nat n)
      as (n' & evs & -> & Hreq); [lia..|].
    exists evs. rewrite seqZ_nil by lia. simpl. by rewrite app_nil_r.
  - destruct (Hup n page ltac:(lia)) as [Hresp Hne].
    rewrite (page_loop_next_page transport _ _ _ _ _ (pages page) Hresp);
      [|done|done|unfold total_pages_of; simpl; lia].
    destruct (IH fuel (page + 1) (S n) (all_data ++ pages page))
      as (evs & -> & Hreq); [lia..|].
    eexists. split.
    + rewrite (seqZ_cons page (Z.of_nat (S m))) by lia.
      replace (Z.pred (Z.of_nat (S m))) with (Z.of_nat m) by lia.
      replace (Z.succ page) with (page + 1) by lia.
      by rewrite fmap_cons, concat_cons, (assoc_L (++)).
    + rewrite requests_Request, requests_Sleep, Hreq.
      rewrite (seqZ_cons page (Z.of_nat (S m))) by lia.
      replace (Z.pred (Z.of_nat (S m))) with (Z.of_nat m) by lia.
      by replace (Z.succ page) with (page + 1) by lia.
Qed.

End fetch_exhaustion.

(** X5. Exhausted retries on transport or HTTP errors give a partial result.
    When the pages [1..k] of an upstream succeed (with more pages
    announced) and every request for page [k + 1] fails with a transport
    or HTTP error, the fetch returns the records of the pages [1..k]: it
    requests them once each, requests page [k + 1] [MAX_RETRIES] times,
    and requests nothing after. *)
Theorem fetch_all_data_error_exhaustion {R} (transport : nat → Z → response R)
    (total_pages k : Z) (pages : Z → list R) (fuel : nat) :
  0 ≤ k < total_pages →
  (∀ n page, 1 ≤ page ≤ k →
     transport n page =
       Success (Body (Some (pages page)) (Some (Some total_pages)))
     ∧ pages page ≠ []) →
  (∀ n, is_error (transport n (k + 1))) →
  (Z.to_nat k < fuel)%nat →
  (fetch_all_data transport fuel).1 = Returned (concat (pages <$> seqZ 1 k))
  ∧ requests (fetch_all_data transport fuel).2
    = seqZ 1 k ++ replicate MAX_RETRIES (k + 1).
Proof.
  intros [Hk0 Hk] Hup Herr Hfuel. unfold fetch_all_data.
  destruct (page_loop_error_exhaustion transport total_pages k pages
              (Z.to_nat k) Hk Hup Herr fuel 1 0%nat [])
    as (evs & -> & Hreq); [lia..|].
  simpl. rewrite Hreq. by rewrite Z2Nat.id by lia.
Qed.

Lemma fetch_all_data_error_exhaustion_witness :
  (fetch_all_data page_2_unreachable 2).1 = Returned [10; 11]
  ∧ requests (fetch_all_data page_2_unreachable 2).2 = [1; 2; 2; 2].
Proof.
  apply (fetch_all_data_error_exhaustion page_2_unreachable 3 1
           (λ _, [10; 11]) 2%nat).
  - lia.
  - intros n page Hpage. assert (page = 1) as -> by lia. done.
  - intros n. right. reflexivity.
  - simpl. lia.
Defined.

(** ** More on the price cache *)

(** X6. The first run. With no snapshot in the directory, [get_or_fetch]
    queries the price source and returns what it yields; it writes that
    as the one snapshot, named after the current time, unless it is
    empty, in which case no file is written. *)
Theorem get_or_fetch_price_data_first_run price_file_name f now
    start_date end_date :
  let run :=
    get_or_fetch_price_data price_file_name f [] now start_date end_date in
  ∃ price_data,
    fetch_historical_tao_prices f start_date end_date = Ok price_data
    ∧ returned run = Ok price_data
    ∧ fetched run = true
    ∧ (price_data ≠ ∅ →
       files_after run = [PriceFile (price_file_name now) now (Some price_data)])
    ∧ (price_data = ∅ → files_after run = []).
Proof.
  destruct (fetch_historical_tao_prices_Ok f start_date end_date)
    as [price_data Hfetch].
  exists price_data. split; [done|].
  unfold get_or_fetch_price_data, save_price_data. simpl. rewrite Hfetch.
  destruct (decide (price_data = ∅)) as [Hempty|Hne]; simpl; split_and!; done.
Qed.

Section cache_reuse.
  Context (price_file_name : Z → string).

Lemma elem_of_write_file file files g :
  g ∈ write_file file files → g = file ∨ g ∈ files.
Proof.
  induction files as [|old files IH]; simpl.
  - intros ->%list_elem_of_singleton. by left.
  - destruct (String.eqb _ _).
    + intros [->|Hg]%elem_of_cons; [by left|right; by right].
    + intros [->|Hg]%elem_of_cons; [right; left|].
      destruct (IH Hg) as [->|Hin]; [by left|right; by right].
Qed.

(** A file newer than every other file is the one [latest] chooses. *)
Lemma latest_newest files file :
  file ∈ files →
  (∀ g, g ∈ files → g = file ∨ ctime g < ctime file) →
  latest files = Some file.
Proof.
  intros Hin Hnewest.
  destruct (latest files) as [r|] eqn:Hlatest.
  - apply latest_spec in Hlatest as [Hr Hmax].
    destruct (Hnewest r Hr) as [->|Hlt]; [done|].
    specialize (Hmax file Hin). lia.
  - destruct files; [by apply elem_of_nil in Hin|done].
Qed.

(** A run that queried the price source and got rows wrote them as a
    snapshot created now. *)
Lemma get_or_fetch_price_data_written f files now start_date end_date prices :
  let run :=
    get_or_fetch_price_data price_file_name f files now start_date end_date in
  fetched run = true → returned run = Ok prices → prices ≠ ∅ →
  files_after run =
    write_file (PriceFile (price_file_name now) now (Some prices)) files.
Proof.
  unfold get_or_fetch_price_data, save_price_data.
  destruct (latest files) as [latest_file|].
  - destruct (timedelta_days (now - ctime latest_file) >? 1); [|done].
    destruct (fetch_historical_tao_prices f start_date end_date)
      as [new_prices|]; [|done].
    destruct (decide (new_prices ∪ load_price_data latest_file = ∅));
      simpl; intros _ [= <-] Hne; done.
  - destruct (fetch_historical_tao_prices f start_date end_date)
      as [price_data|]; [|done].
    destruct (decide (price_data = ∅)); simpl; intros _ [= <-] Hne; done.
Qed.

(** A snapshot less than two days old is loaded as it is. *)
Lemma get_or_fetch_price_data_fresh f files now start_date end_date latest_file :
  latest files = Some latest_file →
  now - ctime latest_file < 2 * DAY →
  get_or_fetch_price_data price_file_name f files now start_date end_date
    = CacheRun (Ok (load_price_data latest_file)) files false.
Proof.
  intros Hlatest Hfresh. apply timedelta_days_le_1 in Hfresh.
  unfold get_or_fetch_price_data. rewrite Hlatest.
  destruct (Z.gtb_spec (timedelta_days (now - ctime latest_file)) 1); [lia|done].
Qed.

End cache_reuse.

(** X7. A refreshed cache is reused. After a run at time [now] that queried
    the price source and returned rows (all snapshots present being older
    than [now]), a later run less than two days after [now] does not
    query the price source again and writes nothing: it loads the
    snapshot the first run wrote, and so returns the same rows. *)
Theorem get_or_fetch_price_data_reuse price_file_name f f' files now later
    start_date end_date start_date' end_date' prices :
  let run :=
    get_or_fetch_price_data price_file_name f files now start_date end_date in
  let run' :=
    get_or_fetch_price_data price_file_name f' (files_after run) later
      start_date' end_date' in
  (∀ g, g ∈ files → ctime g < now) →
  fetched run = true → returned run = Ok prices → prices ≠ ∅ →
  later - now < 2 * DAY →
  fetched run' = false
  ∧ returned run' = Ok prices
  ∧ files_after run' = files_after run.
Proof.
  intros run run' Hold Hfetched Hreturned Hne Hlater.
  pose proof (get_or_fetch_price_data_written price_file_name f files now
                start_date end_date prices Hfetched Hreturned Hne) as Hfiles.
  fold run in Hfiles.
  set (snapshot := PriceFile (price_file_name now) now (Some prices)) in *.
  assert (latest (files_after run) = Some snapshot) as Hlatest.
  { rewrite Hfiles. apply latest_newest; [apply write_file_elem|].
    intros g [->|Hg]%elem_of_write_file; [by left|right].
    by apply Hold. }
  pose proof (get_or_fetch_price_data_fresh price_file_name f'
                (files_after run) later start_date' end_date' snapshot
                Hlatest Hlater) as Hfresh.
  fold run' in Hfresh. by rewrite Hfresh.
Qed.

Lemma get_or_fetch_price_data_reuse_witness :
  let run :=
    get_or_fetch_price_data sample_file_name two_row_feed [old_snapshot]
      (3 * DAY) None None in
  let run' :=
    get_or_fetch_price_data sample_file_name failing_range_feed
      (files_after run) (4 * DAY) None None in
  fetched run' = false
  ∧ returned run' = Ok (two_rows ∪ load_price_data old_snapshot)
  ∧ files_after run' = files_after run.
Proof.
  apply (get_or_fetch_price_data_reuse sample_file_name two_row_feed
           failing_range_feed [old_snapshot] (3 * DAY) (4 * DAY)
           None None None None).
  - intros g ->%list_elem_of_singleton. reflexivity.
  - reflexivity.
  - reflexivity.
  - intros Hempty.
    apply (f_equal (λ m : gmap string pyfloat, m !! "2024-01-01"%string))
      in Hempty.
    vm_compute in Hempty. discriminate.
  - reflexivity.
Defined.

(** ** Floats round to themselves *)

Section float_exact.
  Local Open Scope Q_scope.

(** A number [m * 2 ^ e] with at most 53 significant bits, normalised or
    at the smallest exponent, is a float: rounding does not change
    it. *)
Lemma round_pos_exact (m e : Z) :
  (-1074 <= e)%Z -> (0 < m <= 2 ^ 53)%Z -> (2 ^ 52 <= m \/ e = -1074)%Z ->
  round_pos (inject_Z m * pow2 e) == inject_Z m * pow2 e.
Proof.
  intros He [Hm0 Hm] Hnorm. set (y := inject_Z m * pow2 e).
  pose proof (pow2_pos e) as Hpe.
  assert (0 < inject_Z m) as Hm0' by (change 0 with (inject_Z 0); now rewrite <- Zlt_Qlt).
  assert (0 < y) as Hy by (unfold y; nra).
  assert (inject_Z m <= pow2 53) as Hm53
    by (rewrite pow2_inject by lia; now rewrite <- Zle_Qle).
  destruct (Z.eq_dec m (2 ^ 53)%Z) as [Htop|Hlow].
  - (* the significand 2^53 is 2^52 at the next exponent *)
    assert (y == pow2 (e + 53)) as Hy53.
    { unfold y. rewrite Htop, <- pow2_inject, pow2_add by lia. ring. }
    assert (ilog2 y = (e + 53)%Z) as Hlog.
    { apply ilog2_unique. rewrite Hy53. split; [lra|]. apply pow2_lt. lia. }
    unfold round_pos, ulp_exponent. rewrite Hlog.
    replace (Z.max (e + 53 - 52) (-1074)) with (e + 1)%Z by lia.
    assert (y / pow2 (e + 1) == inject_Z (2 ^ 52)) as Hq.
    { rewrite div_pow2, Hy53, <- pow2_add, <- pow2_inject by lia.
      now replace (e + 53 + - (e + 1))%Z with 52%Z by lia. }
    rewrite (round_half_even_Qeq _ _ Hq), round_half_even_Z.
    rewrite Hy53, <- pow2_inject, <- pow2_add by lia.
    now replace (52 + (e + 1))%Z with (e + 53)%Z by lia.
  - assert (ulp_exponent y = e) as Hexp.
    { unfold ulp_exponent. destruct (ilog2_spec y Hy) as [Hlo Hhi].
      assert (y < pow2 (e + 53)) as Hlt.
      { unfold y. rewrite pow2_add.
        assert (inject_Z m < pow2 53); [|nra].
        rewrite pow2_inject by lia. rewrite <- Zlt_Qlt. lia. }
      assert (pow2 (ilog2 y) < pow2 (e + 53)) as H1%pow2_lt_inv by lra.
      destruct Hnorm as [Hn|He'].
      - assert (pow2 (e + 52) <= y) as Hge.
        { unfold y. rewrite pow2_add.
          assert (pow2 52 <= inject_Z m); [|nra].
          rewrite pow2_inject by lia. now rewrite <- Zle_Qle. }
        assert (pow2 (e + 52) < pow2 (ilog2 y + 1)) as H2%pow2_lt_inv by lra.
        lia.
      - lia. }
    unfold round_pos. rewrite Hexp.
    assert (y / pow2 e == inject_Z m) as Hq.
    { unfold y. rewrite div_pow2, <- Qmult_assoc.
      pose proof (pow2_opp_mul e) as H. rewrite (Qmult_comm (pow2 e)), H. ring. }
    rewrite (round_half_even_Qeq _ _ Hq), round_half_even_Z. reflexivity.
Qed.

(** The result of rounding a positive number has that shape, or is
    zero. *)
Lemma round_pos_shape x :
  0 < x ->
  let m := round_half_even (x / pow2 (ulp_exponent x)) in
  (0 <= m <= 2 ^ 53)%Z /\ (2 ^ 52 <= m \/ ulp_exponent x = -1074)%Z.
Proof.
  intros Hx m. set (e := ulp_exponent x) in *.
  pose proof (pow2_pos e) as Hpe. pose proof (pow2_pos (- e)) as Hpe'.
  pose proof (pow2_opp_mul e) as Hinv.
  destruct (ilog2_spec x Hx) as [Hlo Hhi].
  assert (ilog2 x - 52 <= e)%Z as He by (unfold e, ulp_exponent; lia).
  assert (x < pow2 (53 + e)) as Hx53.
  { eapply Qlt_le_trans; [exact Hhi|]. apply pow2_le. lia. }
  rewrite pow2_add in Hx53.
  assert (0 <= x / pow2 e <= inject_Z (2 ^ 53)) as [Hq0 Hq53].
  { rewrite div_pow2, <- pow2_inject by lia. pose proof (pow2_pos 53).
    generalize dependent (pow2 53). generalize dependent (pow2 (- e)).
    generalize dependent (pow2 e). intros. split; nra. }
  split.
  - split; [now apply round_half_even_ge|now apply round_half_even_le].
  - destruct (Z.eq_dec e (-1074)%Z) as [|Hne]; [now right|left].
    assert (e = ilog2 x - 52)%Z as He' by (unfold e, ulp_exponent in *; lia).
    apply round_half_even_ge. rewrite div_pow2, <- pow2_inject by lia.
    replace (ilog2 x) with (52 + e)%Z in Hlo by lia. rewrite pow2_add in Hlo.
    pose proof (pow2_pos 52).
    generalize dependent (pow2 52). generalize dependent (pow2 (- e)).
    generalize dependent (pow2 e). intros. nra.
Qed.

(** Rounding is idempotent: a rounded number is a float. *)
Lemma round64_idempotent x : round64 (round64 x) = round64 x.
Proof.
  assert (forall y, 0 < y -> round64 (round_pos y) == round_pos y) as Hpos.
  { intros y Hy. destruct (round_pos_shape y Hy) as [[Hm0 Hm] Hnorm].
    unfold round_pos.
    set (m := round_half_even (y / pow2 (ulp_exponent y))) in *.
    set (e := ulp_exponent y) in *.
    assert (-1074 <= e)%Z by (unfold e, ulp_exponent; lia).
    destruct (Z.eq_dec m 0%Z) as [->|Hne].
    - assert (inject_Z 0 * pow2 e == 0) as H0 by ring.
      rewrite (round64_zero _ H0), H0. reflexivity.
    - pose proof (pow2_pos e).
      assert (0 < inject_Z m)
        by (change 0 with (inject_Z 0); rewrite <- Zlt_Qlt; lia).
      rewrite round64_pos by nra. apply round_pos_exact; lia. }
  assert (round64 (round64 x) == round64 x) as Heq.
  { destruct (Qlt_le_dec 0 x) as [Hx|Hx].
    - rewrite (round64_Qeq _ _ (round64_pos x Hx)), (round64_pos x Hx).
      now apply Hpos.
    - destruct (Qlt_le_dec x 0) as [Hx'|Hx'].
      + rewrite (round64_Qeq _ _ (round64_neg x Hx')), (round64_neg x Hx').
        pose proof (round_pos_nonneg (- x) ltac:(lra)) as Hnn.
        destruct (Qlt_le_dec 0 (round_pos (- x))) as [Hr|Hr].
        * rewrite round64_neg by lra.
          assert (- - round_pos (- x) == round_pos (- x)) as Hdd by ring.
          assert (round_pos (- - round_pos (- x)) == round_pos (round_pos (- x)))
            as Hrr.
          { apply Qle_antisym; apply round_pos_mono; lra. }
          rewrite Hrr. rewrite <- (round64_pos (round_pos (- x))) by lra.
          rewrite Hpos by lra. reflexivity.
        * rewrite round64_zero by lra. lra.
      + rewrite (round64_zero (round64 x)) by (apply round64_zero; lra).
        rewrite round64_zero by lra. reflexivity. }
  unfold round64 at 1 3. apply Qred_complete.
  unfold round64 in Heq at 1 3. now rewrite !Qred_correct in Heq.
Qed.

End float_exact.

(** ** Percentages *)

Section percentage_facts.
  Local Open Scope Q_scope.

Lemma tao_is_float z : round64 (tao z) = tao z.
Proof. apply round64_idempotent. Qed.

(** A ratio between 0 and 1, turned into a percentage. *)
Lemma percentage_range q :
  0 <= q <= 1 ->
  exists r p,
    to_float q = Finite r
    /\ fmul (Finite r) (Finite 100) = Finite p
    /\ r = round64 q /\ p = round64 (r * 100)
    /\ 0 <= r <= 1 /\ 0 <= p <= 100.
Proof.
  intros Hq.
  pose proof (round64_between 0 1 _ round64_0 round64_1 Hq) as Hr.
  set (r := round64 q) in *.
  assert (0 <= r * 100 <= 100) as Hp100 by lra.
  pose proof (round64_between 0 100 _ round64_0 round64_100 Hp100) as Hp.
  pose proof one_lt_pow2_1024. pose proof hundred_lt_pow2_1024.
  exists r, (round64 (r * 100)). split; [|split; [|split; [|split; [|split]]]];
    try reflexivity; try assumption.
  - apply to_float_finite. fold r. rewrite Qabs_pos by lra. lra.
  - unfold fmul. apply to_float_finite. rewrite Qabs_pos by lra. lra.
Qed.

Lemma fpositive_Finite q : 0 < q -> fpositive (Finite q) = true.
Proof.
  intros Hq. unfold fpositive. apply Z.ltb_lt.
  unfold Qlt in Hq. simpl in Hq. lia.
Qed.

Lemma fpositive_Finite_nonpos q : q <= 0 -> fpositive (Finite q) = false.
Proof.
  intros Hq. unfold fpositive. apply Z.ltb_ge.
  unfold Qle in Hq. simpl in Hq. lia.
Qed.

Lemma is_zero_Finite_pos q : 0 < q -> is_zero (Finite q) = false.
Proof.
  intros Hq. unfold is_zero. destruct (Qeq_bool q 0) eqn:Heq; [|reflexivity].
  apply Qeq_bool_eq in Heq. exfalso. lra.
Qed.

(** The circulating amount of a valid record and its share. *)
Lemma circulating_share (s i : Z) :
  (0 < i)%Z -> (0 <= s <= i)%Z -> round64 (inject_Z i) < pow2 1024 ->
  exists ct r c,
    fsub (Finite (tao i)) (Finite (tao s)) = Finite ct
    /\ ct = round64 (tao i - tao s)
    /\ 0 <= ct <= tao i
    /\ fpositive (Finite (tao i)) = true
    /\ fdiv (Finite ct) (Finite (tao i)) = Ok (Finite r)
    /\ fmul (Finite r) (Finite 100) = Finite c
    /\ r = round64 (ct / tao i) /\ c = round64 (r * 100)
    /\ 0 <= c <= 100.
Proof.
  intros Hi Hs Hfi.
  destruct (tao_range _ _ Hs Hfi) as (_ & Hst & Hhi).
  pose proof (tao_lower _ Hi) as Hlo.
  destruct (circulating_sum (tao i) (tao s) Hst (conj Hlo Hhi))
    as (ct & total & Hct & _ & Hcteq & _ & Hct0 & _).
  rewrite Qred_correct in Hlo. pose proof (pow2_pos (-30)) as H30.
  assert (ct <= tao i) as Hct1.
  { rewrite Hcteq. apply Qle_trans with (round64 (tao i)).
    - apply round64_mono. lra.
    - rewrite tao_is_float. apply Qle_refl. }
  assert (0 <= ct / tao i <= 1) as Hq.
  { split; [apply Qle_shift_div_l|apply Qle_shift_div_r]; lra. }
  destruct (percentage_range _ Hq) as (r & c & Hr & Hc & Hreq & Hceq & _ & Hc100).
  exists ct, r, c. split; [|split; [|split; [|split; [|split; [|split]]]]];
    try assumption.
  - split; assumption.
  - apply fpositive_Finite. lra.
  - unfold fdiv. rewrite is_zero_Finite_pos by lra. now rewrite Hr.
  - repeat split; tauto.
Qed.

End percentage_facts.

(** X11. The circulating share of a valid record. For a record with a
    positive supply and a stake between 0 and the supply, the row has a
    [circulating_tao] between 0 and [issued_tao] and a
    [circulating_percentage] between 0 and 100, and no division raises. *)
Theorem circulating_percentage_range to_datetime date_str_of include_usd
    prices entry data_point :
  0 < issued entry →
  0 ≤ staked entry ≤ issued entry →
  process_entry to_datetime date_str_of include_usd prices entry
    = Ok data_point →
  ∃ issued_tao circulating_tao c,
    data_point !! "issued_tao"%string = Some (VFloat (Finite issued_tao))
    ∧ data_point !! "circulating_tao"%string
        = Some (VFloat (Finite circulating_tao))
    ∧ (0 <= circulating_tao <= issued_tao)%Q
    ∧ data_point !! "circulating_percentage"%string
        = Some (VFloat (Finite c))
    ∧ (0 <= c <= 100)%Q.
Proof.
  intros Hissued Hstaked
    (it & st & sp & cp & _ & Hi & Hs & Hcp & Di & _ & Dc & _ & Dcp)
    %process_entry_fields.
  apply tao_amount in Hi as [-> Hfi]; [|lia].
  apply tao_amount in Hs as [-> _]; [|lia].
  destruct (circulating_share _ _ Hissued Hstaked Hfi)
    as (ct & r & c & Hct & _ & Hrange & Hpos & Hdiv & Hmul & _ & _ & Hc).
  rewrite Hpos, Hct, Hdiv in Hcp.
  change (Ok (VFloat (fmul (Finite r) (Finite 100))) = Ok cp) in Hcp.
  rewrite Hmul in Hcp. injection Hcp as <-. rewrite Hct in Dc.
  exists (tao (issued entry)), ct, c. done.
Qed.

Lemma circulating_percentage_range_witness :
  ∃ issued_tao circulating_tao c,
    row_jan_1 !! "issued_tao"%string = Some (VFloat (Finite issued_tao))
    ∧ row_jan_1 !! "circulating_tao"%string
        = Some (VFloat (Finite circulating_tao))
    ∧ (0 <= circulating_tao <= issued_tao)%Q
    ∧ row_jan_1 !! "circulating_percentage"%string
        = Some (VFloat (Finite c))
    ∧ (0 <= c <= 100)%Q.
Proof.
  apply (circulating_percentage_range sample_to_datetime sample_date_str_of
           true (Some sample_prices) record_jan_1 row_jan_1).
  - reflexivity.
  - vm_compute. split; discriminate.
  - apply is_Ok_from_Ok. vm_compute. reflexivity.
Defined.

(** ** Exceptions of the normalisation *)



Section entry_exceptions.
  Local Open Scope Q_scope.

Lemma float_of_int_Ok z :
  is_Ok (float_of_int z) = true ->
  float_of_int z = Ok (Finite (round64 (inject_Z z)))
  /\ Qabs (round64 (inject_Z z)) < pow2 1024.
Proof.
  unfold float_of_int.
  destruct (overflows (round64 (inject_Z z))) eqn:Hov; [discriminate|].
  intros _. split; [reflexivity|]. now apply overflows_false.
Qed.




(** A result that is not positive is not [> 0] as a float either. *)
Lemma fpositive_to_float_nonpos x : x <= 0 -> fpositive (to_float x) = false.
Proof.
  intros Hx. apply round64_nonpos in Hx. unfold to_float.
  destruct (overflows (round64 x)) eqn:Hov.
  - unfold overflows in Hov. apply Qle_bool_iff in Hov.
    rewrite Qabs_neg in Hov by exact Hx. pose proof (pow2_pos 1024) as Hp.
    assert (round64 x < 0) as Hneg by lra.
    simpl. unfold Qnegative.
    unfold Qlt in Hneg. simpl in Hneg.
    destruct (Z.ltb_spec (Qnum (round64 x)) 0); [reflexivity|lia].
  - now apply fpositive_Finite_nonpos.
Qed.

End entry_exceptions.





(** X10. A supply that is not positive. When the supply of a record is zero
    or negative, its row holds the integer 0 as [staked_percentage] and as
    [circulating_percentage]: neither quotient is computed. *)
Theorem non_positive_supply_percentages to_datetime date_str_of include_usd
    prices entry data_point :
  issued entry ≤ 0 →
  process_entry to_datetime date_str_of include_usd prices entry
    = Ok data_point →
  data_point !! "staked_percentage"%string = Some (VInt 0)
  ∧ data_point !! "circulating_percentage"%string = Some (VInt 0).
Proof.
  intros Hissued
    (it & st & sp & cp & Hsp & Hi & _ & Hcp & _ & _ & _ & Dsp & Dcp)
    %process_entry_fields.
  destruct (Z.ltb_spec 0 (issued entry)) as [?|_]; [lia|].
  injection Hsp as <-.
  apply bind_Ok in Hi as (fi & Hfi & Hit).
  assert (is_Ok (float_of_int (issued entry)) = true) as Hok by by rewrite Hfi.
  apply float_of_int_Ok in Hok as [Hfi' _]. rewrite Hfi' in Hfi.
  injection Hfi as <-. unfold fdiv in Hit.
  change (is_zero (Finite 1000000000)) with false in Hit.
  cbv iota in Hit. injection Hit as <-.
  rewrite fpositive_to_float_nonpos in Hcp.
  - by injection Hcp as <-.
  - assert (round64 (inject_Z (issued entry)) <= 0)%Q as Hle.
    { apply round64_nonpos. rewrite Zle_Qle in Hissued. exact Hissued. }
    apply Qle_shift_div_r; [reflexivity|]. lra.
Qed.

Lemma non_positive_supply_percentages_witness :
  row_zero_supply !! "staked_percentage"%string = Some (VInt 0)
  ∧ row_zero_supply !! "circulating_percentage"%string = Some (VInt 0).
Proof.
  apply (non_positive_supply_percentages sample_to_datetime sample_date_str_of
           false None record_zero_supply row_zero_supply).
  - vm_compute. discriminate.
  - apply is_Ok_from_Ok. vm_compute. reflexivity.
Defined.

(** ** The metrics of a valid record *)

Section record_values.
  Context (to_datetime : string → result Z) (date_str_of : string → result string).

(** The floats a valid record yields, as roundings of exact values. *)
Lemma process_entry_values include_usd prices entry data_point :
  0 < issued entry →
  0 ≤ staked entry ≤ issued entry →
  process_entry to_datetime date_str_of include_usd prices entry
    = Ok data_point →
  let i := issued entry in
  let s := staked entry in
  let circulating_tao := round64 (tao i - tao s) in
  data_point !! "staked_percentage"%string
    = Some (VFloat (Finite (round64 (round64 (inject_Z s / inject_Z i) * 100))))
  ∧ data_point !! "issued_tao"%string = Some (VFloat (Finite (tao i)))
  ∧ data_point !! "circulating_tao"%string
      = Some (VFloat (Finite circulating_tao))
  ∧ data_point !! "circulating_percentage"%string
      = Some (VFloat (Finite (round64 (round64 (circulating_tao / tao i) * 100))))
  ∧ (0 < tao i)%Q.
Proof.
  intros Hissued Hstaked
    (it & st & sp & cp & Hsp & Hi & Hs & Hcp & Di & _ & Dc & Dsp & Dcp)
    %process_entry_fields.
  destruct (staked_percentage_range _ _ Hissued Hstaked)
    as (ratio & p & Hratio & Hreq & Hp & Hpeq & _ & _).
  apply tao_amount in Hi as [-> Hfi]; [|lia].
  apply tao_amount in Hs as [-> _]; [|lia].
  destruct (circulating_share _ _ Hissued Hstaked Hfi)
    as (ct & r & c & Hct & Hcteq & _ & Hpos & Hdiv & Hmul & Hr & Hc & _).
  rewrite (proj2 (Z.ltb_lt 0 (issued entry)) Hissued), Hratio in Hsp.
  change (Ok (VFloat (fmul (Finite ratio) (Finite 100))) = Ok sp) in Hsp.
  rewrite Hp in Hsp. injection Hsp as <-.
  rewrite Hpos, Hct, Hdiv in Hcp.
  change (Ok (VFloat (fmul (Finite r) (Finite 100))) = Ok cp) in Hcp.
  rewrite Hmul in Hcp. injection Hcp as <-. rewrite Hct in Dc.
  pose proof (tao_lower _ Hissued) as Hlo. rewrite Qred_correct in Hlo.
  pose proof (pow2_pos (-30)) as H30.
  cbv zeta. subst ratio p ct r c.
  split_and!; [done..|]. eapply Qlt_le_trans; [exact H30|exact Hlo].
Qed.

End record_values.

(** X12. The two ends of the range are exact. For a record with a positive
    supply: when the whole supply is staked, the row has a
    [staked_percentage] of exactly 100, a [circulating_tao] of 0 and a
    [circulating_percentage] of 0; when nothing is staked, it has a
    [staked_percentage] of 0, a [circulating_tao] equal to its
    [issued_tao] and a [circulating_percentage] of exactly 100. Rounding
    loses nothing there. *)
Theorem fully_staked_or_unstaked to_datetime date_str_of include_usd prices
    entry data_point :
  0 < issued entry →
  process_entry to_datetime date_str_of include_usd prices entry
    = Ok data_point →
  (staked entry = issued entry →
   data_point !! "staked_percentage"%string = Some (VFloat (Finite 100))
   ∧ data_point !! "circulating_tao"%string = Some (VFloat (Finite 0))
   ∧ data_point !! "circulating_percentage"%string = Some (VFloat (Finite 0)))
  ∧ (staked entry = 0 →
     data_point !! "staked_percentage"%string = Some (VFloat (Finite 0))
     ∧ data_point !! "circulating_tao"%string = data_point !! "issued_tao"%string
     ∧ data_point !! "circulating_percentage"%string
         = Some (VFloat (Finite 100))).
Proof.
  intros Hissued Hdp.
  assert (¬ (inject_Z (issued entry) == 0)%Q) as Hi0.
  { intros H. assert (inject_Z 0 < inject_Z (issued entry))%Q as Hlt
      by (rewrite <- Zlt_Qlt; lia).
    change (inject_Z 0) with 0%Q in Hlt. lra. }
  split; intros Hstaked.
  - destruct (process_entry_values to_datetime date_str_of include_usd prices
                entry data_point Hissued ltac:(lia) Hdp)
      as (Dsp & _ & Dc & Dcp & Hpos).
    rewrite Hstaked in Dsp, Dc, Dcp.
    rewrite (round64_Qeq (inject_Z (issued entry) / inject_Z (issued entry)) 1),
      round64_1, (round64_Qeq (1 * 100) 100), round64_100 in Dsp;
      [|reflexivity|by apply Qmult_inv_r].
    rewrite (round64_Qeq (tao (issued entry) - tao (issued entry)) 0),
      round64_0 in Dc, Dcp by ring.
    rewrite (round64_Qeq (0 / tao (issued entry)) 0), round64_0,
      (round64_Qeq (0 * 100) 0), round64_0 in Dcp;
      [|reflexivity|unfold Qdiv; ring].
    done.
  - destruct (process_entry_values to_datetime date_str_of include_usd prices
                entry data_point Hissued ltac:(lia) Hdp)
      as (Dsp & Di & Dc & Dcp & Hpos).
    rewrite Hstaked in Dsp, Dc, Dcp.
    change (tao 0) with 0%Q in Dc, Dcp.
    rewrite (round64_Qeq (inject_Z 0 / inject_Z (issued entry)) 0), round64_0,
      (round64_Qeq (0 * 100) 0), round64_0 in Dsp;
      [|reflexivity|unfold Qdiv; change (inject_Z 0) with 0%Q; ring].
    rewrite (round64_Qeq (tao (issued entry) - 0) (tao (issued entry))),
      tao_is_float in Dc, Dcp by ring.
    rewrite (round64_Qeq (tao (issued entry) / tao (issued entry)) 1),
      round64_1, (round64_Qeq (1 * 100) 100), round64_100 in Dcp;
      [|reflexivity|apply Qmult_inv_r; lra].
    rewrite Di. done.
Qed.

Lemma fully_staked_or_unstaked_witness :
  (row_fully_staked !! "staked_percentage"%string = Some (VFloat (Finite 100))
   ∧ row_fully_staked !! "circulating_tao"%string = Some (VFloat (Finite 0))
   ∧ row_fully_staked !! "circulating_percentage"%string
       = Some (VFloat (Finite 0)))
  ∧ (row_unstaked !! "staked_percentage"%string = Some (VFloat (Finite 0))
     ∧ row_unstaked !! "circulating_tao"%string
         = row_unstaked !! "issued_tao"%string
     ∧ row_unstaked !! "circulating_percentage"%string
         = Some (VFloat (Finite 100))).
Proof.
  split.
  - refine (proj1 (fully_staked_or_unstaked sample_to_datetime
                     sample_date_str_of false None record_fully_staked
                     row_fully_staked _ _) _).
    + reflexivity.
    + apply is_Ok_from_Ok. vm_compute. reflexivity.
    + reflexivity.
  - refine (proj2 (fully_staked_or_unstaked sample_to_datetime
                     sample_date_str_of false None record_unstaked
                     row_unstaked _ _) _).
    + reflexivity.
    + apply is_Ok_from_Ok. vm_compute. reflexivity.
    + reflexivity.
Defined.

(** ** The order of the records *)

Section record_order.
  Context (to_datetime : string → result Z) (date_str_of : string → result string).


Lemma timestamps_sorted df :
  StronglySorted timestamp_le df → StronglySorted Z.le (timestamp_of <$> df).
Proof. by apply StronglySorted_fmap. Qed.

End record_order.

(** *** The frame with its index *)

Global Instance labelled_le_total : Total labelled_le.
Proof. intros a b. unfold labelled_le, timestamp_le. lia. Qed.

Global Instance labelled_le_trans : Transitive labelled_le.
Proof. intros a b c. unfold labelled_le, timestamp_le. lia. Qed.

Lemma DataFrame_rows rows : (DataFrame rows).*2 = rows.
Proof. unfold DataFrame. apply snd_zip. by rewrite length_seq. Qed.



Lemma sort_values_labelled_Permutation df : sort_values_labelled df ≡ₚ df.
Proof. apply merge_sort_Permutation. Qed.

Lemma sort_values_labelled_sorted df :
  StronglySorted timestamp_le (sort_values_labelled df).*2.
Proof.
  apply (StronglySorted_fmap snd labelled_le); [done|].
  apply StronglySorted_merge_sort; apply _.
Qed.

Section labelled_facts.
  Context (to_datetime : string → result Z) (date_str_of : string → result string).

Lemma process_data_frame_Ok cache raw_data include_usd prices df :
  process_data_frame to_datetime date_str_of cache raw_data include_usd prices
    = Ok df ↔
  ∃ used rows,
    price_data_used cache include_usd prices = Ok used
    ∧ process_entries to_datetime date_str_of include_usd used raw_data = Ok rows
    ∧ rows ≠ []
    ∧ df = sort_values_labelled (DataFrame rows).
Proof.
  unfold process_data_frame. rewrite bind_Ok. split.
  - intros (used & Hused & H). apply bind_Ok in H as (rows & Hrows & H).
    exists used, rows. destruct rows; [done|]. by injection H as <-.
  - intros (used & rows & Hused & Hrows & Hne & ->).
    exists used. split; [done|]. apply bind_Ok. exists rows. split; [done|].
    by destruct rows.
Qed.


End labelled_facts.

(** The rows of the labelled frame are the rows of [process_data]'s list:
    the same rows with the same column of timestamps, in the same order
    when no two rows share a timestamp. *)
Lemma process_data_frame_rows to_datetime date_str_of cache raw_data
    include_usd prices df :
  process_data_frame to_datetime date_str_of cache raw_data include_usd prices
    = Ok df →
  ∃ rows,
    process_data to_datetime date_str_of cache raw_data include_usd prices
      = Ok rows
    ∧ df.*2 ≡ₚ rows
    ∧ timestamp_of <$> df.*2 = timestamp_of <$> rows
    ∧ (NoDup (timestamp_of <$> rows) → df.*2 = rows).
Proof.
  intros (used & rows & Hused & Hrows & Hne & ->)%process_data_frame_Ok.
  assert ((sort_values_labelled (DataFrame rows)).*2 ≡ₚ sort_values rows)
    as Hperm.
  { by rewrite sort_values_labelled_Permutation, DataFrame_rows,
      sort_values_Permutation. }
  assert (timestamp_of <$> (sort_values_labelled (DataFrame rows)).*2
          = timestamp_of <$> sort_values rows) as Hcolumn.
  { apply (StronglySorted_unique Z.le).
    - apply timestamps_sorted, sort_values_labelled_sorted.
    - apply timestamps_sorted, sort_values_sorted.
    - by rewrite Hperm. }
  exists (sort_values rows). split_and!; [|done|done|].
  - unfold process_data. apply bind_Ok. exists used. split; [done|].
    apply bind_Ok. exists rows. split; [done|]. by destruct rows.
  - intros Hnodup.
    apply (StronglySorted_unique_strong
             (λ a b, timestamp_of a < timestamp_of b)); [| | |done].
    + intros a b _ _ ? ?. lia.
    + apply StronglySorted_strict; [apply sort_values_labelled_sorted|].
      by rewrite Hcolumn.
    + apply StronglySorted_strict; [apply sort_values_sorted|done].
Qed.



(** The two sample frames hold the same rows in the same order, the row
    of 1 January first; its label is 1 when the records are given in
    descending order and 0 when they are given in ascending order. *)
Example sample_frame_labels :
  sample_frame_descending.*1 = [1; 0]%nat
  ∧ sample_frame_ascending.*1 = [0; 1]%nat
  ∧ sample_frame_descending ≠ sample_frame_ascending.
Proof.
  assert (sample_frame_descending.*1 = [1; 0]%nat) as Hd
    by (vm_compute; reflexivity).
  assert (sample_frame_ascending.*1 = [0; 1]%nat) as Ha
    by (vm_compute; reflexivity).
  split; [exact Hd|]. split; [exact Ha|].
  intros Heq. apply (f_equal (fmap fst)) in Heq.
  change (sample_frame_descending.*1 = sample_frame_ascending.*1) in Heq.
  rewrite Hd, Ha in Heq. discriminate.
Qed.

(** ** Frames without USD columns *)

(** X14. Without USD columns. With [include_usd = False] the price cache is
    not consulted and a price map passed along is ignored: the result is
    the same whatever they are, also when reading the cache would raise.
    No row of the frame then holds any of the four USD fields. *)
Theorem process_data_without_usd to_datetime date_str_of cache raw_data prices :
  process_data to_datetime date_str_of cache raw_data false prices
    = process_data to_datetime date_str_of Exn raw_data false None
  ∧ ∀ df row k,
      process_data to_datetime date_str_of cache raw_data false prices = Ok df →
      row ∈ df → k ∈ usd_fields → row !! k = None.
Proof.
  split; [reflexivity|].
  intros df row k (prices' & rows & Hrows & _ & -> & Hnone & _)%process_data_Ok
    Hrow Hk.
  rewrite (Hnone eq_refl) in Hrows.
  rewrite sort_values_Permutation in Hrow.
  apply process_entries_Forall2 in Hrows.
  destruct (Forall2_elem_of_r _ _ _ _ Hrows Hrow) as (entry & _ & Hentry).
  apply process_entry_inv in Hentry
    as (ts & it & st & sp & cp & _ & _ & _ & _ & _ & ->).
  by apply base_data_point_lookup.
Qed.

(** ** The historical series *)

(** X8. The mapping of a non-empty series. When both dates parse and the
    feed returns at least one row, the historical query returns a
    mapping that holds exactly the dates of the rows, each with the close
    of the last row of that date. *)
Theorem fetch_historical_tao_prices_last_close f from_date to_date hist :
  strptime_ok f (default "2023-03-20"%string from_date) = true →
  strptime_ok f (default (today f) to_date) = true →
  history_range f (default "2023-03-20"%string from_date)
    (default (today f) to_date) = Ok hist →
  hist ≠ [] →
  ∃ prices,
    fetch_historical_tao_prices f from_date to_date = Ok prices
    ∧ (∀ d, prices !! d = snd <$> last (filter (λ row, row.1 = d) hist))
    ∧ (∀ d, is_Some (prices !! d) ↔ d ∈ hist.*1).
Proof.
  intros Hfrom Hto Hhist Hne. exists (daily_prices_of hist). split_and!.
  - unfold fetch_historical_tao_prices. rewrite Hfrom, Hto, Hhist.
    by destruct hist.
  - apply daily_prices_of_lookup.
  - intros d. rewrite daily_prices_of_lookup, fmap_is_Some, list_elem_of_fmap.
    split.
    + intros [row Hlast]. apply last_Some_elem_of in Hlast.
      apply list_elem_of_filter in Hlast as [Hd Hin]. by exists row.
    + intros (row & -> & Hin).
      assert (row ∈ filter (λ r, r.1 = row.1) hist) as Hf
        by by apply list_elem_of_filter.
      destruct (filter (λ r, r.1 = row.1) hist) as [|x l] eqn:E using rev_ind.
      * by apply elem_of_nil in Hf.
      * rewrite last_snoc. by eexists.
Qed.

Lemma fetch_historical_tao_prices_last_close_witness :
  ∃ prices,
    fetch_historical_tao_prices two_row_feed None None = Ok prices
    ∧ (∀ d, prices !! d
            = snd <$> last (filter (λ row, row.1 = d)
                              [("2024-01-01"%string, Finite 105);
                               ("2024-01-02"%string, Finite 107)]))
    ∧ (∀ d, is_Some (prices !! d)
            ↔ d ∈ [("2024-01-01"%string, Finite 105);
                   ("2024-01-02"%string, Finite 107)].*1).
Proof.
  apply (fetch_historical_tao_prices_last_close two_row_feed None None).
  - reflexivity.
  - reflexivity.
  - reflexivity.
  - discriminate.
Defined.
